(** * live-ai-call: the telephone/speech-AI bridge

    A shallow embedding of the four variants of the bridge found in the
    repository:

    - [IndexJs]   src/index.js, first document (field extraction on every
                  text delta, completion flag, partial hand-off on hang-up);
    - [IndexJsB]  src/index.js, second document (playback tracking and
                  truncation only, no notification sink);
    - [Part000]   src/unnamed/part_000 (field extraction, completion flag
                  tested on [response.completed]);
    - [Part001]   src/unnamed/part_001 (playback tracking, hand-off on every
                  [response.completed] carrying content).

    Every handler is a function from the per-connection variables to their
    new values and the list of effects it performs, in program order.  The
    handlers only assign to the per-connection variables before their first
    [await], so one event is one atomic step; the one handler that reads
    something after an [await], the hang-up handler of index.js (first
    document), is two steps.  Sending on a socket is recorded as an effect
    whatever the state of the socket.  Text is held as UTF-8. *)

From stdpp Require Import gmap strings list fin_maps pretty.
From Stdlib Require Import ZArith Lia Ascii.

Set Warnings "-register-all".
Local Open Scope Z_scope.

(** ** JavaScript values as far as the bridge looks at them *)

(** The result of [JSON.parse].  Numbers are integers here: the bridge only
    ever tests a number for being zero. *)
Inductive json :=
| JNull
| JBool (b : bool)
| JNum (n : Z)
| JStr (s : string)
| JArr (l : list json)
| JObj (m : gmap string json).

(** [if (v)] on a parsed value. *)
Definition truthy (v : json) : bool :=
  match v with
  | JNull => false
  | JBool b => b
  | JNum n => negb (n =? 0)
  | JStr s => negb (String.eqb s "")
  | JArr _ => true
  | JObj _ => true
  end.

(** [if (x)] on a variable or property that is [null]/[undefined] or a
    string, and on one that is [null] or a number. *)
Definition truthy_str (o : option string) : bool :=
  match o with
  | Some s => negb (String.eqb s "")
  | None => false
  end.

Definition truthy_num (o : option Z) : bool :=
  match o with
  | Some n => negb (n =? 0)
  | None => false
  end.

(** [String.prototype.trim] removes white space and line terminators from
    both ends: the six ASCII ones (tab, line feed, vertical tab, form feed,
    carriage return, space) and, in UTF-8, U+00A0 (C2 A0), U+1680
    (E1 9A 80), U+2000 to U+200A (E2 80 80 to E2 80 8A), U+2028 and U+2029
    (E2 80 A8, E2 80 A9), U+202F (E2 80 AF), U+205F (E2 81 9F), U+3000
    (E3 80 80) and U+FEFF (EF BB BF). *)
Definition is_space2 (a b : ascii) : bool :=
  Ascii.eqb a "194" && Ascii.eqb b "160".

Definition is_space3 (a b c : ascii) : bool :=
  let n := nat_of_ascii c in
  (Ascii.eqb a "225" && Ascii.eqb b "154" && Ascii.eqb c "128")
  || (Ascii.eqb a "226" && Ascii.eqb b "128"
      && ((128 <=? n)%nat && (n <=? 138)%nat
          || (n =? 168)%nat || (n =? 169)%nat || (n =? 175)%nat))
  || (Ascii.eqb a "226" && Ascii.eqb b "129" && Ascii.eqb c "159")
  || (Ascii.eqb a "227" && Ascii.eqb b "128" && Ascii.eqb c "128")
  || (Ascii.eqb a "239" && Ascii.eqb b "187" && Ascii.eqb c "191").

(** Drop the white space at the head of [l]; [two] and [three] tell the
    two-byte and three-byte white space, bytes in the order met. *)
Fixpoint strip_space (two : ascii → ascii → bool)
    (three : ascii → ascii → ascii → bool) (l : list ascii) : list ascii :=
  match l with
  | a :: r =>
      if Ascii.is_space a then strip_space two three r
      else
        match r with
        | b :: r' =>
            if two a b then strip_space two three r'
            else
              match r' with
              | c :: r'' =>
                  if three a b c then strip_space two three r'' else l
              | [] => l
              end
        | [] => l
        end
  | [] => []
  end.

Definition trimStart (s : string) : string :=
  String.string_of_list_ascii
    (strip_space is_space2 is_space3 (String.list_ascii_of_string s)).

(** From the end the bytes of a character are met last byte first. *)
Definition trimEnd (s : string) : string :=
  String.string_of_list_ascii
    (rev (strip_space (λ a b, is_space2 b a) (λ a b c, is_space3 c b a)
            (rev (String.list_ascii_of_string s)))).

Definition trim (s : string) : string := trimEnd (trimStart s).

Definition startsWith (s p : string) : bool := String.prefix p s.

Definition endsWith (s p : string) : bool :=
  String.prefix (String.rev p) (String.rev s).

(** The three bytes that stand for the code [x] of a UTF-16 code unit from
    U+0800 on. *)
Definition unit_bytes (x : N) : string :=
  String (ascii_of_N (224 + x / 4096))
    (String (ascii_of_N (128 + (x / 64) mod 64))
       (String (ascii_of_N (128 + x mod 64)) EmptyString)).

(** The UTF-16 code units of a text, which are what a string is indexed
    by, each as the string of that one unit.  A character of one, two or
    three bytes is one unit.  A character of four bytes is two units, the
    high and the low surrogate of its code point, each written in three
    bytes. *)
Fixpoint code_units (l : list ascii) : list string :=
  match l with
  | [] => []
  | a :: r =>
      if (N_of_ascii a <? 192)%N then String a EmptyString :: code_units r
      else
        match r with
        | [] => [String a EmptyString]
        | b :: r1 =>
            if (N_of_ascii a <? 224)%N
            then String a (String b EmptyString) :: code_units r1
            else
              match r1 with
              | [] => [String a (String b EmptyString)]
              | c :: r2 =>
                  if (N_of_ascii a <? 240)%N
                  then String a (String b (String c EmptyString))
                       :: code_units r2
                  else
                    match r2 with
                    | [] => [String a (String b (String c EmptyString))]
                    | d :: r3 =>
                        let point :=
                          ((N_of_ascii a mod 8) * 262144
                           + (N_of_ascii b mod 64) * 4096
                           + (N_of_ascii c mod 64) * 64
                           + N_of_ascii d mod 64)%N in
                        let v := (point - 65536)%N in
                        unit_bytes (55296 + v / 1024)%N
                        :: unit_bytes (56320 + v mod 1024)%N
                        :: code_units r3
                    end
              end
        end
  end.

(** The own enumerable properties that [{ ...v }] copies out of [v]: the
    members of an object, the elements of an array under their indices, the
    code units of a string under theirs. *)
Definition own_props (v : json) : gmap string json :=
  match v with
  | JObj m => m
  | JArr l => list_to_map (imap (λ i x, (pretty i, x)) l)
  | JStr s =>
      list_to_map
        (imap (λ i c, (pretty i, JStr c))
              (code_units (String.list_ascii_of_string s)))
  | _ => ∅
  end.

(** [{ ...a, ...b }]: the keys of [b] win. *)
Definition spread (a : gmap string json) (b : json) : gmap string json :=
  own_props b ∪ a.

Definition Object_values (o : gmap string json) : list json :=
  snd <$> map_to_list o.

(** [Object.values(o).every(f => f)] and [Object.values(o).some(f => f)]. *)
Definition allFilled (o : gmap string json) : bool :=
  forallb truthy (Object_values o).

Definition some_truthy (o : gmap string json) : bool :=
  existsb truthy (Object_values o).

(** ** Per-connection state *)

Inductive ReadyState := CONNECTING | OPEN | CLOSING | CLOSED.

Definition is_open (r : ReadyState) : bool :=
  match r with OPEN => true | _ => false end.

(** The [let] variables of the [/media-stream] handler, over all variants; a
    variant that does not declare one of them never reads or writes it.
    [readyState] is [openAiWs.readyState], as the guards of the handlers read
    it.  It belongs to the socket library, not to the bridge: the handlers
    below move it where the library is known to have moved it when they run
    (to [OPEN] with the open event, to [CLOSED] with the close event, to
    [CLOSING] by a call of [close()]); the library also leaves [OPEN] at
    moments the bridge does not see (a socket error, the peer's close
    frame). *)
Record Session := mkSession {
  streamSid : option string;
  latestMediaTimestamp : Z;
  lastAssistantItem : option string;
  markQueue : list string;
  responseStartTimestampTwilio : option Z;
  userData : gmap string json;
  allConfirmed : bool;
  readyState : ReadyState
}.

Definition initial_userData : gmap string json :=
  <["name" := JNull]> (<["email" := JNull]> (<["problem" := JNull]>
    (<["time" := JNull]> (<["tcp" := JNull]> ∅)))).

Definition initial : Session :=
  {| streamSid := None;
     latestMediaTimestamp := 0;
     lastAssistantItem := None;
     markQueue := [];
     responseStartTimestampTwilio := None;
     userData := initial_userData;
     allConfirmed := false;
     readyState := CONNECTING |}.

Definition set_streamSid (v : option string) (s : Session) : Session :=
  mkSession v (latestMediaTimestamp s) (lastAssistantItem s) (markQueue s)
            (responseStartTimestampTwilio s) (userData s) (allConfirmed s)
            (readyState s).

Definition set_latestMediaTimestamp (v : Z) (s : Session) : Session :=
  mkSession (streamSid s) v (lastAssistantItem s) (markQueue s)
            (responseStartTimestampTwilio s) (userData s) (allConfirmed s)
            (readyState s).

Definition set_lastAssistantItem (v : option string) (s : Session) : Session :=
  mkSession (streamSid s) (latestMediaTimestamp s) v (markQueue s)
            (responseStartTimestampTwilio s) (userData s) (allConfirmed s)
            (readyState s).

Definition set_markQueue (v : list string) (s : Session) : Session :=
  mkSession (streamSid s) (latestMediaTimestamp s) (lastAssistantItem s) v
            (responseStartTimestampTwilio s) (userData s) (allConfirmed s)
            (readyState s).

Definition set_responseStartTimestampTwilio (v : option Z) (s : Session)
  : Session :=
  mkSession (streamSid s) (latestMediaTimestamp s) (lastAssistantItem s)
            (markQueue s) v (userData s) (allConfirmed s) (readyState s).

Definition set_userData (v : gmap string json) (s : Session) : Session :=
  mkSession (streamSid s) (latestMediaTimestamp s) (lastAssistantItem s)
            (markQueue s) (responseStartTimestampTwilio s) v (allConfirmed s)
            (readyState s).

Definition set_allConfirmed (v : bool) (s : Session) : Session :=
  mkSession (streamSid s) (latestMediaTimestamp s) (lastAssistantItem s)
            (markQueue s) (responseStartTimestampTwilio s) (userData s) v
            (readyState s).

Definition set_readyState (v : ReadyState) (s : Session) : Session :=
  mkSession (streamSid s) (latestMediaTimestamp s) (lastAssistantItem s)
            (markQueue s) (responseStartTimestampTwilio s) (userData s)
            (allConfirmed s) v.

(** ** Frames and effects *)

(** A decoded frame of the speech-AI side, with the properties the handlers
    read: [msg.type], [msg.delta], [msg.item_id], [msg.content[i].text].
    A property is absent ([None]) or a string. *)
Record ContentPart := mkPart { part_text : option string }.

Record AiMsg := mkAiMsg {
  msg_type : string;
  msg_delta : option string;
  msg_item_id : option string;
  msg_content : option (list ContentPart)
}.

(** A decoded frame of the caller side: [data.event],
    [data.media.timestamp], [data.media.payload], [data.start.streamSid].
    The timestamp is a number of milliseconds. *)
Record Media := mkMedia { media_timestamp : Z; media_payload : string }.
Record Start := mkStart { start_streamSid : string }.

Record TwilioMsg := mkTwilioMsg {
  data_event : string;
  data_media : option Media;
  data_start : option Start
}.

Inductive Timer := initializeSession | connection_close.

(** What a handler does to the outside world.  [ConnectionSendMedia] is a
    [media] frame carrying AI audio and the stream identifier;
    [ConnectionSendFarewell] is the [media] frame whose payload is the
    farewell text, sent without a stream identifier. *)
Inductive Action :=
| ConnectionSendMedia (sid : option string) (payload : string)
| ConnectionSendFarewell
| ConnectionClose
| OpenAiSendSessionUpdate
| OpenAiSendAppend (audio : string)
| OpenAiSendTruncate (item_id : string) (content_index : Z) (audio_end_ms : Z)
| OpenAiClose
| SendToSlack (name email problem time tcp : option json)
| SetTimeout (cb : Timer) (ms : Z)
| ConsoleLog (text : string)
| ConsoleError (text : string)
| FastifyListen
| ProcessExit (code : Z).

(** What can happen to one connection.  A frame that [JSON.parse] rejects,
    or that is the JSON [null], is [None].  [OnHangupResumed] is the hang-up
    handler of index.js (first document) going on after its
    [await sendToSlack(userData)]. *)
Inductive Event :=
| OnOpenAiOpen
| OnOpenAiMessage (data : option AiMsg)
| OnOpenAiClose
| OnOpenAiError
| OnConnectionMessage (data : option TwilioMsg)
| OnConnectionClose
| OnTimeout (cb : Timer)
| OnHangupResumed.

(** [sendToSlack] destructures the five fields out of the record it is given;
    nothing else of the record reaches the sink. *)
Definition sendToSlack (u : gmap string json) : Action :=
  SendToSlack (u !! "name") (u !! "email") (u !! "problem") (u !! "time")
              (u !! "tcp").

(** Handlers are run one statement after the other. *)
Definition Handler := Session → Session * list Action.

Definition seq (f g : Handler) : Handler := λ s,
  let '(s1, a1) := f s in
  let '(s2, a2) := g s1 in
  (s2, a1 ++ a2).

Infix ">>>" := seq (at level 75, right associativity).

Definition emit (a : list Action) : Handler := λ s, (s, a).

(** A whole session: the events in arrival order. *)
Fixpoint run (handle : Session → Event → Session * list Action)
    (s : Session) (evs : list Event) : Session * list Action :=
  match evs with
  | [] => (s, [])
  | e :: evs' =>
      let '(s1, a1) := handle s e in
      let '(s2, a2) := run handle s1 evs' in
      (s2, a1 ++ a2)
  end.

Definition is_slack (a : Action) : bool :=
  match a with SendToSlack _ _ _ _ _ => true | _ => false end.

Definition is_truncate (a : Action) : bool :=
  match a with OpenAiSendTruncate _ _ _ => true | _ => false end.

Definition handoffs (l : list Action) : nat := length (List.filter is_slack l).

Definition truncations (l : list Action) : list Action :=
  List.filter is_truncate l.

(** ** Statements that several variants share, word for word *)

(** [null] counts as 0 in a subtraction. *)
Definition to_number (o : option Z) : Z := default 0 o.

(** [msg.type === 'response.output_audio.delta' && msg.delta] *)
Definition audio_delta (msg : AiMsg) : option string :=
  if String.eqb (msg_type msg) "response.output_audio.delta"
     && truthy_str (msg_delta msg)
  then msg_delta msg else None.

(** index.js 112-114, part_000 118-120: relay the audio to the caller. *)
Definition relay_audio (msg : AiMsg) : Handler := λ s,
  match audio_delta msg with
  | Some d => (s, [ConnectionSendMedia (streamSid s) d])
  | None => (s, [])
  end.

(** index.js 308-318, part_001 146-156: relay the audio and note where the
    utterance started and which item it belongs to. *)
Definition relay_audio_tracked (msg : AiMsg) : Handler := λ s,
  match audio_delta msg with
  | Some d =>
      let s1 :=
        if negb (truthy_num (responseStartTimestampTwilio s))
        then set_responseStartTimestampTwilio (Some (latestMediaTimestamp s)) s
        else s in
      let s2 :=
        if truthy_str (msg_item_id msg)
        then set_lastAssistantItem (msg_item_id msg) s1
        else s1 in
      (s2, [ConnectionSendMedia (streamSid s) d])
  | None => (s, [])
  end.

(** index.js 320-337, part_001 185-202. *)
Definition speech_started (msg : AiMsg) : Handler := λ s,
  if String.eqb (msg_type msg) "input_audio_buffer.speech_started" then
    if (0 <? Z.of_nat (length (markQueue s)))
       && truthy_num (responseStartTimestampTwilio s)
    then
      let elapsed :=
        latestMediaTimestamp s - to_number (responseStartTimestampTwilio s) in
      let sent :=
        match lastAssistantItem s with
        | Some item =>
            if truthy_str (Some item)
            then [OpenAiSendTruncate item 0 elapsed] else []
        | None => []
        end in
      (set_responseStartTimestampTwilio None
         (set_lastAssistantItem None (set_markQueue [] s)), sent)
    else (s, [])
  else (s, []).

Definition LOG_EVENT_TYPES : list string :=
  [ "error"; "response.content.done"; "rate_limits.updated"; "response.done";
    "input_audio_buffer.committed"; "input_audio_buffer.speech_stopped";
    "input_audio_buffer.speech_started"; "session.created";
    "session.updated" ].

Definition log_event (msg : AiMsg) : Handler := λ s,
  (s, if existsb (String.eqb (msg_type msg)) LOG_EVENT_TYPES
      then [ConsoleLog (msg_type msg)] else []).

(** index.js 343-368, part_001 209-234: the caller-side handler of the two
    variants that track playback. *)
Definition tracked_connection_message (data : option TwilioMsg) : Handler :=
  λ s,
  match data with
  | None => (s, [ConsoleError "Error parsing message:"])
  | Some d =>
      if String.eqb (data_event d) "media" then
        match data_media d with
        | Some m =>
            (set_latestMediaTimestamp (media_timestamp m) s,
             if is_open (readyState s)
             then [OpenAiSendAppend (media_payload m)] else [])
        | None => (s, [ConsoleError "Error parsing message:"])
        end
      else if String.eqb (data_event d) "start" then
        match data_start d with
        | Some st =>
            (set_responseStartTimestampTwilio None
               (set_latestMediaTimestamp 0
                  (set_streamSid (Some (start_streamSid st)) s)),
             [ConsoleLog "Media stream started:"])
        | None => (s, [ConsoleError "Error parsing message:"])
        end
      else if String.eqb (data_event d) "mark" then
        match markQueue s with
        | _ :: rest => (set_markQueue rest s, [])
        | [] => (s, [])
        end
      else (s, [ConsoleLog "Non-media event:"])
  end.

(** [if (openAiWs.readyState === WebSocket.OPEN) openAiWs.close()] *)
Definition close_openai : Handler := λ s,
  if is_open (readyState s)
  then (set_readyState CLOSING s, [OpenAiClose])
  else (s, []).

Section Extractor.
(** [JSON.parse] itself is the engine's; the handlers are defined, and
    their properties proved, for whatever it answers. *)
Variable JSON_parse : string → option json.

(** index.js 116-126, part_000 122-135. *)
Definition extract_text_delta (msg : AiMsg) : Handler := λ s,
  if String.eqb (msg_type msg) "response.output_text.delta"
     && truthy_str (msg_delta msg)
  then
    let partial := trim (default "" (msg_delta msg)) in
    if startsWith partial "{" && endsWith partial "}" then
      match JSON_parse partial with
      | Some parsed =>
          (set_userData (spread (userData s) parsed) s,
           [ConsoleLog "Updated userData:"])
      | None => (s, [])
      end
    else (s, [])
  else (s, []).
End Extractor.

(** index.js 130-146, part_000 139-155: the completeness check and what
    follows it. *)
Definition confirm_if_filled : Handler := λ s,
  if allFilled (userData s) then
    (set_allConfirmed true s,
     [sendToSlack (userData s); ConnectionSendFarewell;
      SetTimeout connection_close 2000])
  else (s, []).

(** The process environment as far as the start-up code reads it. *)
Record Env := mkEnv {
  OPENAI_API_KEY : option string;
  SLACK_WEBHOOK_URL : option string
}.

(** The tail of every variant: register the routes, listen, and leave if
    listening fails. *)
Definition listen (listen_err : bool) : list Action :=
  FastifyListen ::
  (if listen_err then [ConsoleError "listen"; ProcessExit 1]
   else [ConsoleLog "Server is listening on"]).

(** ** src/index.js, first document *)
Module IndexJs.

Definition startup (env : Env) (listen_err : bool) : list Action :=
  if negb (truthy_str (OPENAI_API_KEY env))
     || negb (truthy_str (SLACK_WEBHOOK_URL env))
  then [ConsoleError
          "Missing OPENAI_API_KEY or SLACK_WEBHOOK_URL in .env file.";
        ProcessExit 1]
  else listen listen_err.

Section Handlers.
Variable JSON_parse : string → option json.

Definition check_all_filled : Handler := λ s,
  if negb (allConfirmed s) then confirm_if_filled s else (s, []).

Definition openai_message (data : option AiMsg) : Handler :=
  match data with
  | None => emit [ConsoleError "Error processing OpenAI message:"]
  | Some msg =>
      relay_audio msg >>> extract_text_delta JSON_parse msg >>>
      check_all_filled
  end.

Definition connection_message (data : option TwilioMsg) : Handler := λ s,
  match data with
  | None => (s, [ConsoleError "Error parsing Twilio message:"])
  | Some d =>
      if String.eqb (data_event d) "media" then
        if is_open (readyState s) then
          match data_media d with
          | Some m => (s, [OpenAiSendAppend (media_payload m)])
          | None => (s, [ConsoleError "Error parsing Twilio message:"])
          end
        else (s, [])
      else if String.eqb (data_event d) "start" then
        match data_start d with
        | Some st =>
            (set_streamSid (Some (start_streamSid st)) s,
             [ConsoleLog "Media stream started:"])
        | None => (s, [ConsoleError "Error parsing Twilio message:"])
        end
      else (s, [])
  end.

Definition partial_handoff : Handler := λ s,
  if negb (allConfirmed s) && some_truthy (userData s)
  then (s, [ConsoleLog "Sending partial data to Slack...";
            sendToSlack (userData s)])
  else (s, []).

(** index.js 173-180.  When the partial hand-off is made the handler stops
    at its [await]; the test of [openAiWs.readyState] that follows is run
    when it resumes ([OnHangupResumed]), on the state the socket has then.
    Without a partial hand-off there is no [await] and the test is run at
    once. *)
Definition close_unless_awaiting : Handler := λ s,
  if negb (allConfirmed s) && some_truthy (userData s)
  then (s, []) else close_openai s.

Definition connection_closed : Handler :=
  emit [ConsoleLog "Client disconnected from media-stream"] >>>
  partial_handoff >>> close_unless_awaiting.

Definition hangup_resumed : Handler := close_openai.

Definition handle (s : Session) (e : Event) : Session * list Action :=
  match e with
  | OnOpenAiOpen =>
      (set_readyState OPEN s,
       [ConsoleLog "Connected to OpenAI Realtime API";
        OpenAiSendSessionUpdate; ConsoleLog "Initialized OpenAI session"])
  | OnOpenAiMessage data => openai_message data s
  | OnOpenAiClose =>
      (set_readyState CLOSED s,
       [ConsoleLog "OpenAI Realtime API disconnected"])
  | OnOpenAiError => (s, [ConsoleError "OpenAI WebSocket error:"])
  | OnConnectionMessage data => connection_message data s
  | OnConnectionClose => connection_closed s
  | OnTimeout connection_close => (s, [ConnectionClose])
  | OnTimeout initializeSession => (s, [])
  | OnHangupResumed => hangup_resumed s
  end.
End Handlers.
End IndexJs.

(** ** src/index.js, second document *)
Module IndexJsB.

Definition startup (env : Env) (listen_err : bool) : list Action :=
  if negb (truthy_str (OPENAI_API_KEY env))
  then [ConsoleError "Missing OPENAI_API_KEY in .env file."; ProcessExit 1]
  else listen listen_err.

Definition openai_message (data : option AiMsg) : Handler :=
  match data with
  | None => emit [ConsoleError "Error processing OpenAI message:"]
  | Some msg =>
      log_event msg >>> relay_audio_tracked msg >>> speech_started msg
  end.

Definition connection_closed : Handler :=
  emit [ConsoleLog "Client disconnected from media-stream"] >>> close_openai.

Definition handle (s : Session) (e : Event) : Session * list Action :=
  match e with
  | OnOpenAiOpen =>
      (set_readyState OPEN s,
       [ConsoleLog "Connected to OpenAI Realtime API";
        SetTimeout initializeSession 100])
  | OnOpenAiMessage data => openai_message data s
  | OnOpenAiClose =>
      (set_readyState CLOSED s,
       [ConsoleLog "OpenAI Realtime API disconnected"])
  | OnOpenAiError => (s, [ConsoleError "OpenAI WebSocket error:"])
  | OnConnectionMessage data => tracked_connection_message data s
  | OnConnectionClose => connection_closed s
  | OnTimeout initializeSession =>
      (s, [ConsoleLog "Initializing OpenAI session";
           OpenAiSendSessionUpdate])
  | OnTimeout connection_close => (s, [])
  | OnHangupResumed => (s, [])
  end.
End IndexJsB.

(** ** src/unnamed/part_000 *)
Module Part000.

Definition startup (env : Env) (listen_err : bool) : list Action :=
  IndexJs.startup env listen_err.

Section Handlers.
Variable JSON_parse : string → option json.

Definition check_completed (msg : AiMsg) : Handler := λ s,
  if String.eqb (msg_type msg) "response.completed"
     && negb (allConfirmed s)
  then confirm_if_filled s else (s, []).

Definition openai_message (data : option AiMsg) : Handler :=
  match data with
  | None => emit [ConsoleError "Error processing OpenAI message:"]
  | Some msg =>
      relay_audio msg >>> extract_text_delta JSON_parse msg >>>
      check_completed msg
  end.

Definition connection_message (data : option TwilioMsg) : Handler := λ s,
  match data with
  | None => (s, [ConsoleError "Error parsing Twilio message:"])
  | Some d =>
      if String.eqb (data_event d) "media" then
        match data_media d with
        | Some m =>
            (set_latestMediaTimestamp (media_timestamp m) s,
             if is_open (readyState s)
             then [OpenAiSendAppend (media_payload m)] else [])
        | None => (s, [ConsoleError "Error parsing Twilio message:"])
        end
      else if String.eqb (data_event d) "start" then
        match data_start d with
        | Some st => (set_streamSid (Some (start_streamSid st)) s, [])
        | None => (s, [ConsoleError "Error parsing Twilio message:"])
        end
      else (s, [])
  end.

Definition connection_closed : Handler :=
  emit [ConsoleLog "Client disconnected from media-stream"] >>>
  close_openai.

Definition handle (s : Session) (e : Event) : Session * list Action :=
  match e with
  | OnOpenAiOpen =>
      (set_readyState OPEN s,
       [ConsoleLog "Connected to OpenAI Realtime API";
        OpenAiSendSessionUpdate; ConsoleLog "Initialized OpenAI session"])
  | OnOpenAiMessage data => openai_message data s
  | OnOpenAiClose =>
      (set_readyState CLOSED s,
       [ConsoleLog "OpenAI Realtime API disconnected"])
  | OnOpenAiError => (s, [ConsoleError "OpenAI WebSocket error:"])
  | OnConnectionMessage data => connection_message data s
  | OnConnectionClose => connection_closed s
  | OnTimeout connection_close => (s, [ConnectionClose])
  | OnTimeout initializeSession => (s, [])
  | OnHangupResumed => (s, [])
  end.
End Handlers.
End Part000.

(** ** src/unnamed/part_001 *)
Module Part001.

Definition startup (env : Env) (listen_err : bool) : list Action :=
  if negb (truthy_str (OPENAI_API_KEY env))
  then [ConsoleError "Missing OPENAI_API_KEY in .env file."; ProcessExit 1]
  else if negb (truthy_str (SLACK_WEBHOOK_URL env))
  then [ConsoleError "Missing SLACK_WEBHOOK_URL in .env file.";
        ProcessExit 1]
  else listen listen_err.

Section Handlers.
Variable JSON_parse : string → option json.

(** [msg.content[0]?.text || '{}'] *)
Definition content_text (parts : list ContentPart) : string :=
  match parts with
  | p :: _ =>
      if truthy_str (part_text p) then default "" (part_text p) else "{}"
  | [] => "{}"
  end.

Definition completed_handoff (msg : AiMsg) : Handler := λ s,
  if String.eqb (msg_type msg) "response.completed" then
    match msg_content msg with
    | Some parts =>
        match JSON_parse (content_text parts) with
        | Some aiContent =>
            let u := spread (userData s) aiContent in
            (set_userData u s,
             [sendToSlack u; ConnectionSendFarewell;
              SetTimeout connection_close 2000])
        | None => (s, [ConsoleError "Error parsing AI JSON:"])
        end
    | None => (s, [])
    end
  else (s, []).

Definition openai_message (data : option AiMsg) : Handler :=
  match data with
  | None => emit [ConsoleError "Error processing OpenAI message:"]
  | Some msg =>
      log_event msg >>> relay_audio_tracked msg >>>
      completed_handoff msg >>> speech_started msg
  end.

Definition connection_closed : Handler :=
  emit [ConsoleLog "Client disconnected from media-stream"] >>>
  close_openai.

Definition handle (s : Session) (e : Event) : Session * list Action :=
  match e with
  | OnOpenAiOpen =>
      (set_readyState OPEN s,
       [ConsoleLog "Connected to OpenAI Realtime API";
        SetTimeout initializeSession 100])
  | OnOpenAiMessage data => openai_message data s
  | OnOpenAiClose =>
      (set_readyState CLOSED s,
       [ConsoleLog "OpenAI Realtime API disconnected"])
  | OnOpenAiError => (s, [ConsoleError "OpenAI WebSocket error:"])
  | OnConnectionMessage data => tracked_connection_message data s
  | OnConnectionClose => connection_closed s
  | OnTimeout initializeSession =>
      (s, [ConsoleLog "Initializing OpenAI session";
           OpenAiSendSessionUpdate])
  | OnTimeout connection_close => (s, [ConnectionClose])
  | OnHangupResumed => (s, [])
  end.
End Handlers.
End Part001.


(** ** A reference [JSON.parse] for concrete sessions

    The theorems below hold for any [JSON_parse].  Concrete sessions are run
    with this parser of a subset of JSON: objects, arrays, strings with the
    one-letter escapes, integers, [true], [false], [null].  Text outside the
    subset (a fraction, an exponent, a [\u] escape) is rejected. *)

Definition is_json_ws (c : ascii) : bool :=
  match c with
  | " " | "009" | "010" | "013" => true
  | _ => false
  end%char.

Fixpoint skip_ws (l : list ascii) : list ascii :=
  match l with
  | c :: r => if is_json_ws c then skip_ws r else l
  | [] => []
  end.

Definition unescape (c : ascii) : option ascii :=
  match c with
  | "034" => Some "034" | "\" => Some "\" | "/" => Some "/"
  | "b" => Some "008" | "f" => Some "012" | "n" => Some "010"
  | "r" => Some "013" | "t" => Some "009"
  | _ => None
  end%char.

(** The characters of a string, after its opening quote. *)
Fixpoint parse_chars (l : list ascii) : option (string * list ascii) :=
  match l with
  | [] => None
  | c :: r =>
      if Ascii.eqb c "034" then Some (EmptyString, r)
      else if Ascii.eqb c "\" then
        match r with
        | e :: r' =>
            match unescape e, parse_chars r' with
            | Some c', Some (s, rest) => Some (String c' s, rest)
            | _, _ => None
            end
        | [] => None
        end
      else if (nat_of_ascii c <? 32)%nat then None
      else
        match parse_chars r with
        | Some (s, rest) => Some (String c s, rest)
        | None => None
        end
  end.

Fixpoint parse_digits (l : list ascii) (acc : Z) : Z * list ascii :=
  match l with
  | c :: r =>
      match Ascii.is_nat c with
      | Some d => parse_digits r (10 * acc + Z.of_nat d)
      | None => (acc, l)
      end
  | [] => (acc, [])
  end.

Definition ends_number (rest : list ascii) : bool :=
  match rest with
  | c :: _ =>
      negb (Ascii.eqb c "." || Ascii.eqb c "e" || Ascii.eqb c "E"
            || bool_decide (is_Some (Ascii.is_nat c)))
  | [] => true
  end.

Definition parse_number (l : list ascii) : option (json * list ascii) :=
  let '(neg, l1) :=
    match l with
    | c :: r => if Ascii.eqb c "-" then (true, r) else (false, l)
    | [] => (false, l)
    end in
  match l1 with
  | c :: r =>
      match Ascii.is_nat c with
      | Some d =>
          let '(n, rest) :=
            if (d =? 0)%nat then (0, r) else parse_digits l1 0 in
          if ends_number rest
          then Some (JNum (if neg : bool then - n else n), rest)
          else None
      | None => None
      end
  | [] => None
  end.

Definition parse_literal (l : list ascii) : option (json * list ascii) :=
  match l with
  | "t" :: "r" :: "u" :: "e" :: r => Some (JBool true, r)
  | "f" :: "a" :: "l" :: "s" :: "e" :: r => Some (JBool false, r)
  | "n" :: "u" :: "l" :: "l" :: r => Some (JNull, r)
  | _ => None
  end%char.

(** The members of an object after the first, or the first if the object is
    not empty; a repeated key keeps its last value. *)
Fixpoint parse_members (value : list ascii → option (json * list ascii))
    (fuel : nat) (l : list ascii) (acc : gmap string json)
  : option (json * list ascii) :=
  match fuel with
  | O => None
  | S fuel' =>
      match skip_ws l with
      | c :: r =>
          if Ascii.eqb c "034" then
            match parse_chars r with
            | Some (k, r1) =>
                match skip_ws r1 with
                | c1 :: r2 =>
                    if Ascii.eqb c1 ":" then
                      match value r2 with
                      | Some (v, r3) =>
                          match skip_ws r3 with
                          | c3 :: r4 =>
                              if Ascii.eqb c3 "," then
                                parse_members value fuel' r4 (<[k := v]> acc)
                              else if Ascii.eqb c3 "}" then
                                Some (JObj (<[k := v]> acc), r4)
                              else None
                          | [] => None
                          end
                      | None => None
                      end
                    else None
                | [] => None
                end
            | None => None
            end
          else None
      | [] => None
      end
  end.

Fixpoint parse_elements (value : list ascii → option (json * list ascii))
    (fuel : nat) (l : list ascii) (acc : list json)
  : option (json * list ascii) :=
  match fuel with
  | O => None
  | S fuel' =>
      match value l with
      | Some (v, r1) =>
          match skip_ws r1 with
          | c :: r2 =>
              if Ascii.eqb c "," then
                parse_elements value fuel' r2 (acc ++ [v])
              else if Ascii.eqb c "]" then Some (JArr (acc ++ [v]), r2)
              else None
          | [] => None
          end
      | None => None
      end
  end.

Fixpoint parse_value (fuel : nat) (l : list ascii)
  : option (json * list ascii) :=
  match fuel with
  | O => None
  | S fuel' =>
      match skip_ws l with
      | c :: r =>
          if Ascii.eqb c "{" then
            match skip_ws r with
            | c' :: r' =>
                if Ascii.eqb c' "}" then Some (JObj ∅, r')
                else parse_members (parse_value fuel') fuel' r ∅
            | [] => None
            end
          else if Ascii.eqb c "[" then
            match skip_ws r with
            | c' :: r' =>
                if Ascii.eqb c' "]" then Some (JArr [], r')
                else parse_elements (parse_value fuel') fuel' r []
            | [] => None
            end
          else if Ascii.eqb c "034" then
            match parse_chars r with
            | Some (s, rest) => Some (JStr s, rest)
            | None => None
            end
          else if Ascii.eqb c "-" || bool_decide (is_Some (Ascii.is_nat c))
          then parse_number (c :: r)
          else parse_literal (c :: r)
      | [] => None
      end
  end.

Definition parse_json (text : string) : option json :=
  let l := String.list_ascii_of_string text in
  match parse_value (S (length l)) l with
  | Some (v, rest) =>
      match skip_ws rest with
      | [] => Some v
      | _ :: _ => None
      end
  | None => None
  end.

(** JSON text is written below with ['] standing for the double quote. *)
Definition js (s : string) : string :=
  String.string_of_list_ascii
    (map (λ c : ascii, if Ascii.eqb c "'" then "034"%char else c)
         (String.list_ascii_of_string s)).


(** * Vocabulary of the properties *)

(** A statement that, run with an empty queue, leaves it empty and truncates
    nothing. *)
Definition queue_safe (f : Handler) : Prop :=
  ∀ s, markQueue s = [] →
    markQueue (f s).1 = [] ∧ truncations (f s).2 = [].

(** A statement that keeps a property of the session. *)
Definition preserves (P : Session → Prop) (f : Handler) : Prop :=
  ∀ s, P s → P (f s).1.

(** A recorded playback start is not later than the caller's clock. *)
Definition start_not_later (s : Session) : Prop :=
  match responseStartTimestampTwilio s with
  | Some t => t ≤ latestMediaTimestamp s
  | None => True
  end.

(** A [media] frame does not move the caller's clock backwards. *)
Definition clock_not_back (s : Session) (e : Event) : Prop :=
  match e with
  | OnConnectionMessage (Some d) =>
      match data_media d with
      | Some m =>
          String.eqb (data_event d) "media" = true →
          latestMediaTimestamp s ≤ media_timestamp m
      | None => True
      end
  | _ => True
  end.

(** Media timestamps never decrease within one stream, along a whole
    session (a [start] frame puts the clock back to 0). *)
Fixpoint monotone_media (handle : Session → Event → Session * list Action)
    (s : Session) (evs : list Event) : Prop :=
  match evs with
  | [] => True
  | e :: evs' =>
      clock_not_back s e ∧ monotone_media handle (handle s e).1 evs'
  end.

(** Forget a recorded playback start of 0. *)
Definition forget_zero_start (s : Session) : Session :=
  match responseStartTimestampTwilio s with
  | Some 0 => set_responseStartTimestampTwilio None s
  | _ => s
  end.

(** The frames used in the statements. *)
Definition speech_started_frame (d i : option string)
    (c : option (list ContentPart)) : Event :=
  OnOpenAiMessage (Some (mkAiMsg "input_audio_buffer.speech_started" d i c)).

Definition audio_delta_frame (c : ascii) (d : string) (i : option string)
    (k : option (list ContentPart)) : Event :=
  OnOpenAiMessage
    (Some (mkAiMsg "response.output_audio.delta" (Some (String c d)) i k)).

Definition text_delta_frame (d : string) : Event :=
  OnOpenAiMessage
    (Some (mkAiMsg "response.output_text.delta" (Some d) None None)).

Definition completed_frame (content : option (list ContentPart)) : Event :=
  OnOpenAiMessage (Some (mkAiMsg "response.completed" None None content)).

Definition start_frame (sid : string) (m : option Media) : Event :=
  OnConnectionMessage (Some (mkTwilioMsg "start" m (Some (mkStart sid)))).

Definition media_frame (t : Z) (payload : string) : Event :=
  OnConnectionMessage
    (Some (mkTwilioMsg "media" (Some (mkMedia t payload)) None)).

Definition mark_frame (m : option Media) (st : option Start) : Event :=
  OnConnectionMessage (Some (mkTwilioMsg "mark" m st)).

(** The five fields of the structured record. *)
Definition FIELDS : list string := ["name"; "email"; "problem"; "time"; "tcp"].

(** The value that the last of the parsed fragments [frs] (in arrival order)
    carrying key [k] gives to [k]. *)
Fixpoint last_write (frs : list json) (k : string) : option json :=
  match frs with
  | [] => None
  | f :: frs' =>
      match last_write frs' k with
      | Some v => Some v
      | None => own_props f !! k
      end
  end.

(** The parsed fragments of a session, in arrival order: what [JSON.parse]
    answers on each text delta whose trimmed text is wrapped in braces. *)
Definition extracted_of (JSON_parse : string → option json) (e : Event)
  : option json :=
  match e with
  | OnOpenAiMessage (Some msg) =>
      if String.eqb (msg_type msg) "response.output_text.delta"
         && truthy_str (msg_delta msg)
         && startsWith (trim (default "" (msg_delta msg))) "{"
         && endsWith (trim (default "" (msg_delta msg))) "}"
      then JSON_parse (trim (default "" (msg_delta msg)))
      else None
  | _ => None
  end.

Definition extracted (JSON_parse : string → option json) (evs : list Event)
  : list json :=
  omap (extracted_of JSON_parse) evs.

Definition text_delta_msg (d : string) (i : option string)
    (c : option (list ContentPart)) : AiMsg :=
  mkAiMsg "response.output_text.delta" (Some d) i c.

(** A statement that, run with the completion flag set, leaves it set and
    hands nothing off. *)
Definition flag_safe (f : Handler) : Prop :=
  ∀ s, allConfirmed s = true →
    allConfirmed (f s).1 = true ∧ handoffs (f s).2 = 0%nat.

(** A statement that hands off at most once, and only by setting the flag. *)
Definition flag_led (f : Handler) : Prop :=
  ∀ s, (handoffs (f s).2 ≤ 1)%nat
       ∧ (allConfirmed (f s).1 = false → handoffs (f s).2 = 0%nat).

(** ** Concrete sessions *)

(** U+00A0 (no-break space), U+2028 (line separator) and U+FEFF (byte order
    mark) in UTF-8; and the letters e with acute accent (C3 A9) and a with
    grave accent (C3 A0), which are no white space. *)
Definition NBSP : string := String "194" (String "160" EmptyString).
Definition LINE_SEPARATOR : string :=
  String "226" (String "128" (String "168" EmptyString)).
Definition BOM : string :=
  String "239" (String "187" (String "191" EmptyString)).
Definition E_ACUTE : string := String "195" (String "169" EmptyString).
Definition A_GRAVE : string := String "195" (String "160" EmptyString).

(** A barge-in: the stream starts, the AI starts speaking item I1 when the
    caller's clock is at 100 ms, and the clock has reached 350 ms when the
    caller cuts in. *)
Definition barge_in_session : list Event :=
  [ start_frame "S1" None; media_frame 100 "AAAA";
    audio_delta_frame "x" "yz" (Some "I1") None; media_frame 350 "BBBB" ].

(** Three fragments carry the five fields between them. *)
Definition three_fragments : list Event :=
  [ start_frame "S1" None;
    text_delta_frame (js "{'name':'Jo'}");
    text_delta_frame (js "{'email':'a@b.com','problem':'x'}");
    text_delta_frame (js "{'time':'3pm','tcp':'foo.com'}") ].

(** ** Vocabulary of the relay and hand-off properties *)

(** The four variants. *)
Definition is_variant (JSON_parse : string → option json)
    (handle : Session → Event → Session * list Action) : Prop :=
  handle = IndexJs.handle JSON_parse ∨ handle = IndexJsB.handle
  ∨ handle = Part000.handle JSON_parse ∨ handle = Part001.handle JSON_parse.

(** The two that track playback, and the two that keep the flag. *)
Definition is_tracked (JSON_parse : string → option json)
    (handle : Session → Event → Session * list Action) : Prop :=
  handle = Part001.handle JSON_parse ∨ handle = IndexJsB.handle.

Definition is_flagged (JSON_parse : string → option json)
    (handle : Session → Event → Session * list Action) : Prop :=
  handle = IndexJs.handle JSON_parse ∨ handle = Part000.handle JSON_parse.

Definition is_append (a : Action) : bool :=
  match a with OpenAiSendAppend _ => true | _ => false end.

(** A [media] frame sent to the caller, relayed audio or farewell. *)
Definition is_caller_media (a : Action) : bool :=
  match a with
  | ConnectionSendMedia _ _ | ConnectionSendFarewell => true
  | _ => false
  end.

Definition is_farewell (a : Action) : bool :=
  match a with ConnectionSendFarewell => true | _ => false end.

Definition is_openai_close (a : Action) : bool :=
  match a with OpenAiClose => true | _ => false end.

Definition is_console (a : Action) : bool :=
  match a with ConsoleLog _ | ConsoleError _ => true | _ => false end.

Definition is_openai_message (e : Event) : bool :=
  match e with OnOpenAiMessage _ => true | _ => false end.

(** A caller frame that carries a stream identifier to capture. *)
Definition is_start (e : Event) : bool :=
  match e with
  | OnConnectionMessage (Some d) =>
      String.eqb (data_event d) "start"
      && bool_decide (is_Some (data_start d))
  | _ => false
  end.

(** The caller audio an event carries: the payload of a [media] frame. *)
Definition media_of (e : Event) : list Action :=
  match e with
  | OnConnectionMessage (Some d) =>
      match data_media d with
      | Some m =>
          if String.eqb (data_event d) "media"
          then [OpenAiSendAppend (media_payload m)] else []
      | None => []
      end
  | _ => []
  end.

(** What an event does to the captured stream identifier. *)
Definition next_streamSid (sid : option string) (e : Event)
  : option string :=
  match e with
  | OnConnectionMessage (Some d) =>
      match data_start d with
      | Some st =>
          if String.eqb (data_event d) "start"
          then Some (start_streamSid st) else sid
      | None => sid
      end
  | _ => sid
  end.

(** The AI audio that reaches the caller: each non-empty audio delta, tagged
    with the stream identifier captured so far. *)
Fixpoint relayed (sid : option string) (evs : list Event) : list Action :=
  match evs with
  | [] => []
  | e :: evs' =>
      match e with
      | OnOpenAiMessage (Some msg) =>
          match audio_delta msg with
          | Some d => [ConnectionSendMedia sid d]
          | None => []
          end
      | _ => []
      end ++ relayed (next_streamSid sid e) evs'
  end.

(** A statement that sends nothing of one kind, and one that leaves one
    variable alone. *)
Definition emits_none (p : Action → bool) (f : Handler) : Prop :=
  ∀ s, List.filter p (f s).2 = [].

Definition keeps {A : Type} (var : Session → A) (f : Handler) : Prop :=
  ∀ s, var (f s).1 = var s.

(** The structured record and its flag. *)
Definition record_of (s : Session) : gmap string json * bool :=
  (userData s, allConfirmed s).

(** Whether a step runs the test of the AI socket that ends the hang-up
    handler.  [waits] is [true] for index.js (first document), whose handler
    waits for the partial hand-off it makes and runs the test when it
    resumes, and [false] for the three variants whose handler runs it at
    once. *)
Definition tests_socket (waits : bool) (s : Session) (e : Event) : bool :=
  match e with
  | OnConnectionClose =>
      negb (waits && negb (allConfirmed s) && some_truthy (userData s))
  | OnHangupResumed => waits
  | _ => false
  end.

(** Two states that the guards on the AI socket cannot tell apart. *)
Definition same_socket_view (waits : bool) (s t : Session) : Prop :=
  is_open (readyState s) = is_open (readyState t)
  ∧ (waits = true → record_of s = record_of t).

(** A statement that sends at most as many farewells as it hands off. *)
Definition farewell_bounded (f : Handler) : Prop :=
  ∀ s, (length (List.filter is_farewell (f s).2) ≤ handoffs (f s).2)%nat.

(** Every one of the five fields is present in the record. *)
Definition has_fields (u : gmap string json) : Prop :=
  ∀ k, k ∈ FIELDS → is_Some (u !! k).

(** Whether the variant looks at the record on this frame: index.js (first
    document) on every frame, part_000 on [response.completed] only. *)
Definition checks_on (completed_only : bool) (msg : AiMsg) : bool :=
  if completed_only then String.eqb (msg_type msg) "response.completed"
  else true.

(** The value a hand-off posts for a field: what the last fragment carrying
    the field gave it, and [null] if none did. *)
Definition posted (frs : list json) (k : string) : option json :=
  Some (default JNull (last_write frs k)).

(** [1] if the flag is set, [0] if not. *)
Definition flag_count (s : Session) : nat :=
  if allConfirmed s then 1%nat else 0%nat.

(** A frame that cannot be used: one that does not parse, a caller frame
    with a tag no variant knows, a [media] frame without its [media] member,
    a [start] frame without its [start] member; and an error event of the AI
    socket. *)
Definition is_unusable (e : Event) : bool :=
  match e with
  | OnOpenAiMessage None | OnConnectionMessage None | OnOpenAiError => true
  | OnConnectionMessage (Some d) =>
      if String.eqb (data_event d) "media"
      then negb (bool_decide (is_Some (data_media d)))
      else if String.eqb (data_event d) "start"
      then negb (bool_decide (is_Some (data_start d)))
      else negb (String.eqb (data_event d) "mark")
  | _ => false
  end.

(** What an event does to the active item id when no marker is queued: an
    audio delta that carries an item id records it. *)
Definition next_item (item : option string) (e : Event) : option string :=
  match e with
  | OnOpenAiMessage (Some msg) =>
      match audio_delta msg with
      | Some _ => if truthy_str (msg_item_id msg) then msg_item_id msg else item
      | None => item
      end
  | _ => item
  end.


(** * Properties *)

(** ** Unfolding the handlers *)

Create HintDb bridge.

#[export] Hint Unfold
  emit relay_audio relay_audio_tracked speech_started
  log_event tracked_connection_message close_openai extract_text_delta
  confirm_if_filled
  IndexJs.check_all_filled IndexJs.openai_message IndexJs.connection_message
  IndexJs.partial_handoff IndexJs.close_unless_awaiting
  IndexJs.hangup_resumed IndexJs.connection_closed IndexJs.handle
  IndexJsB.openai_message IndexJsB.connection_closed IndexJsB.handle
  Part000.check_completed Part000.openai_message Part000.connection_message
  Part000.connection_closed Part000.handle
  Part001.completed_handoff Part001.openai_message Part001.connection_closed
  Part001.handle : bridge.

Ltac step_cases :=
  autounfold with bridge; simpl;
  repeat (case_match; simplify_eq/=; try done).

Lemma seq_eq (f g : Handler) s :
  (f >>> g) s = ((g (f s).1).1, (f s).2 ++ (g (f s).1).2).
Proof.
  unfold seq. destruct (f s) as [s1 a1]; simpl. by destruct (g s1).
Qed.

Lemma run_cons handle s e evs :
  run handle s (e :: evs) =
  ((run handle (handle s e).1 evs).1,
   (handle s e).2 ++ (run handle (handle s e).1 evs).2).
Proof.
  simpl. destruct (handle s e) as [s1 a1]; simpl.
  by destruct (run handle s1 evs).
Qed.

Lemma run_snoc handle s evs e :
  run handle s (evs ++ [e]) =
  ((handle (run handle s evs).1 e).1,
   (run handle s evs).2 ++ (handle (run handle s evs).1 e).2).
Proof.
  revert s. induction evs as [|e' evs IH]; intros s.
  - rewrite app_nil_l, run_cons. simpl. by rewrite app_nil_r.
  - rewrite <- app_comm_cons, !run_cons, IH. simpl. by rewrite app_assoc.
Qed.

Lemma truncations_app l1 l2 :
  truncations (l1 ++ l2) = truncations l1 ++ truncations l2.
Proof. apply List.filter_app. Qed.

Lemma handoffs_app l1 l2 :
  handoffs (l1 ++ l2) = (handoffs l1 + handoffs l2)%nat.
Proof. unfold handoffs. by rewrite List.filter_app, length_app. Qed.

(** ** The marker queue *)

Lemma queue_safe_seq f g : queue_safe f → queue_safe g → queue_safe (f >>> g).
Proof.
  intros Hf Hg s Hq. rewrite seq_eq; simpl.
  destruct (Hf s Hq) as [Hq1 Ht1]. destruct (Hg _ Hq1) as [Hq2 Ht2].
  by rewrite truncations_app, Ht1, Ht2.
Qed.

Lemma queue_safe_emit a : truncations a = [] → queue_safe (emit a).
Proof. by intros Ha s Hq. Qed.

Lemma queue_safe_log_event msg : queue_safe (log_event msg).
Proof. intros s Hq. step_cases. Qed.

Lemma queue_safe_relay_audio_tracked msg :
  queue_safe (relay_audio_tracked msg).
Proof. intros s Hq. step_cases. Qed.

Lemma queue_safe_speech_started msg : queue_safe (speech_started msg).
Proof.
  intros s Hq. unfold speech_started. rewrite Hq; simpl.
  by destruct (_ =? _)%string.
Qed.

Lemma queue_safe_tracked_connection_message data :
  queue_safe (tracked_connection_message data).
Proof. intros s Hq. step_cases; by rewrite Hq in *. Qed.

Lemma queue_safe_close_openai : queue_safe close_openai.
Proof. intros s Hq. step_cases. Qed.

Lemma queue_safe_completed_handoff JSON_parse msg :
  queue_safe (Part001.completed_handoff JSON_parse msg).
Proof. intros s Hq. step_cases. Qed.

#[export] Hint Resolve queue_safe_seq queue_safe_emit queue_safe_log_event
  queue_safe_relay_audio_tracked queue_safe_speech_started
  queue_safe_tracked_connection_message queue_safe_close_openai
  queue_safe_completed_handoff : bridge.

Lemma IndexJsB_queue_safe e : queue_safe (λ s, IndexJsB.handle s e).
Proof.
  destruct e as [|[msg|]| | | | |[]|]; simpl;
    unfold IndexJsB.openai_message, IndexJsB.connection_closed;
    eauto 6 with bridge; by intros s Hq.
Qed.

Lemma Part001_queue_safe JSON_parse e :
  queue_safe (λ s, Part001.handle JSON_parse s e).
Proof.
  destruct e as [|[msg|]| | | | |[]|]; simpl;
    unfold Part001.openai_message, Part001.connection_closed;
    eauto 8 with bridge; by intros s Hq.
Qed.

Lemma run_queue_safe handle evs :
  (∀ e, queue_safe (λ s, handle s e)) → queue_safe (λ s, run handle s evs).
Proof.
  intros Hk. induction evs as [|e evs IH]; intros s Hq.
  - done.
  - rewrite run_cons; simpl.
    destruct (Hk e s Hq) as [Hq1 Ht1]. destruct (IH _ Hq1) as [Hq2 Ht2].
    by rewrite truncations_app, Ht1, Ht2.
Qed.

Lemma tracked_queue_safe JSON_parse handle e :
  handle = Part001.handle JSON_parse ∨ handle = IndexJsB.handle →
  queue_safe (λ s, handle s e).
Proof.
  intros [-> | ->]; [apply Part001_queue_safe | apply IndexJsB_queue_safe].
Qed.

(** C2.  In both variants that keep a marker queue (part_001 and the second
    document of index.js), after any sequence of events of a session the
    queue is empty, no truncate instruction has been sent to the AI session,
    and a [mark] frame arriving then changes nothing and does nothing. *)
Theorem marker_queue_never_filled (JSON_parse : string → option json)
    (evs : list Event) (m : option Media) (st : option Start) :
  let r1 := run (Part001.handle JSON_parse) initial evs in
  let r2 := run IndexJsB.handle initial evs in
  (markQueue r1.1 = [] ∧ truncations r1.2 = []
   ∧ Part001.handle JSON_parse r1.1 (mark_frame m st) = (r1.1, []))
  ∧ (markQueue r2.1 = [] ∧ truncations r2.2 = []
     ∧ IndexJsB.handle r2.1 (mark_frame m st) = (r2.1, [])).
Proof.
  intros r1 r2.
  destruct (run_queue_safe (Part001.handle JSON_parse) evs
              (Part001_queue_safe JSON_parse) initial eq_refl) as [Hq1 Ht1].
  destruct (run_queue_safe IndexJsB.handle evs
              IndexJsB_queue_safe initial eq_refl) as [Hq2 Ht2].
  fold r1 in Hq1, Ht1. fold r2 in Hq2, Ht2.
  repeat split; try done.
  - simpl. unfold tracked_connection_message; simpl. by rewrite Hq1.
  - simpl. unfold tracked_connection_message; simpl. by rewrite Hq2.
Qed.

(** ** Playback bookkeeping and truncation *)

(** What either playback-tracking variant does with a speech-started frame:
    it logs the frame (its type is in [LOG_EVENT_TYPES]) and runs the
    truncation statement. *)
Lemma tracked_speech_started JSON_parse handle d i c s :
  handle = Part001.handle JSON_parse ∨ handle = IndexJsB.handle →
  let msg := mkAiMsg "input_audio_buffer.speech_started" d i c in
  handle s (speech_started_frame d i c) =
  ((speech_started msg s).1,
   ConsoleLog "input_audio_buffer.speech_started" :: (speech_started msg s).2).
Proof.
  intros [-> | ->]; simpl;
    unfold Part001.openai_message, IndexJsB.openai_message;
    rewrite !seq_eq; simpl; by destruct (speech_started _ s).
Qed.

(** The truncation statement, case by case. *)
Lemma speech_started_sends d i c s :
  let msg := mkAiMsg "input_audio_buffer.speech_started" d i c in
  speech_started msg s =
  if (0 <? Z.of_nat (length (markQueue s)))
     && truthy_num (responseStartTimestampTwilio s)
  then
    (set_responseStartTimestampTwilio None
       (set_lastAssistantItem None (set_markQueue [] s)),
     if truthy_str (lastAssistantItem s)
     then [OpenAiSendTruncate (default "" (lastAssistantItem s)) 0
             (latestMediaTimestamp s
              - to_number (responseStartTimestampTwilio s))]
     else [])
  else (s, []).
Proof.
  unfold speech_started; simpl.
  destruct (_ && _); [|done]. by destruct (lastAssistantItem s).
Qed.

Lemma queue_nonempty (q : list string) :
  (0 <? Z.of_nat (length q)) = true ↔ q ≠ [].
Proof. destruct q; split; intros H; try done; by apply Z.ltb_lt. Qed.

Lemma preserves_seq P f g :
  preserves P f → preserves P g → preserves P (f >>> g).
Proof. intros Hf Hg s Hs. rewrite seq_eq; simpl. by apply Hg, Hf. Qed.

Lemma preserves_emit P a : preserves P (emit a).
Proof. by intros s Hs. Qed.

#[export] Hint Resolve preserves_seq preserves_emit : bridge.

Lemma start_not_later_log_event msg :
  preserves start_not_later (log_event msg).
Proof. by intros s Hs. Qed.

Lemma start_not_later_relay msg :
  preserves start_not_later (relay_audio_tracked msg).
Proof. unfold start_not_later. intros s Hs. step_cases; lia. Qed.

Lemma start_not_later_speech_started msg :
  preserves start_not_later (speech_started msg).
Proof. unfold start_not_later. intros s Hs. step_cases. Qed.

Lemma start_not_later_completed JSON_parse msg :
  preserves start_not_later (Part001.completed_handoff JSON_parse msg).
Proof. unfold start_not_later. intros s Hs. step_cases. Qed.

Lemma start_not_later_close_openai : preserves start_not_later close_openai.
Proof. unfold start_not_later. intros s Hs. step_cases. Qed.

Lemma start_not_later_connection_message data s :
  start_not_later s → clock_not_back s (OnConnectionMessage data) →
  start_not_later (tracked_connection_message data s).1.
Proof.
  unfold start_not_later, clock_not_back. intros Hs He.
  step_cases; try lia.
Qed.

#[export] Hint Resolve start_not_later_log_event start_not_later_relay
  start_not_later_speech_started start_not_later_completed
  start_not_later_close_openai : bridge.

Lemma start_not_later_step JSON_parse handle s e :
  handle = Part001.handle JSON_parse ∨ handle = IndexJsB.handle →
  start_not_later s → clock_not_back s e → start_not_later (handle s e).1.
Proof.
  intros [-> | ->] Hs He; destruct e as [|[msg|]| | |data| |[]|]; simpl;
    try done; try (by apply start_not_later_connection_message);
    revert s Hs He; 
    unfold Part001.openai_message, Part001.connection_closed,
      IndexJsB.openai_message, IndexJsB.connection_closed;
    match goal with
    | |- ∀ s, start_not_later s → _ → start_not_later (?f s).1 =>
        intros s Hs _; revert s Hs;
        change (preserves start_not_later f); eauto 8 with bridge
    end.
Qed.

Lemma start_not_later_run JSON_parse handle s evs :
  handle = Part001.handle JSON_parse ∨ handle = IndexJsB.handle →
  start_not_later s → monotone_media handle s evs →
  start_not_later (run handle s evs).1.
Proof.
  intros Hh. revert s. induction evs as [|e evs IH]; intros s Hs Hm.
  - done.
  - destruct Hm as [He Hm]. rewrite run_cons; simpl.
    apply IH; [|done]. by eapply start_not_later_step.
Qed.

(** The guard of the truncation statement, in any state.  Take any state in
    which a recorded playback start is not later than the caller's clock,
    and let any events follow in which media timestamps never decrease
    within a stream.  If the playback start is then not the number 0, a
    speech-started frame sends a truncate instruction exactly when the
    marker queue is not empty, a playback start is recorded, and an active
    item id is recorded.  At most one instruction is sent. *)
Lemma truncate_guard (JSON_parse : string → option json)
    (handle : Session → Event → Session * list Action)
    (s0 : Session) (evs : list Event)
    (d i : option string) (c : option (list ContentPart)) :
  handle = Part001.handle JSON_parse ∨ handle = IndexJsB.handle →
  start_not_later s0 →
  monotone_media handle s0 evs →
  let s := (run handle s0 evs).1 in
  responseStartTimestampTwilio s ≠ Some 0 →
  let sent := truncations (handle s (speech_started_frame d i c)).2 in
  (sent ≠ [] ↔
     markQueue s ≠ [] ∧ is_Some (responseStartTimestampTwilio s)
     ∧ truthy_str (lastAssistantItem s) = true)
  ∧ (length sent ≤ 1)%nat
  ∧ ∀ a, a ∈ sent →
      ∃ item t,
        lastAssistantItem s = Some item
        ∧ responseStartTimestampTwilio s = Some t
        ∧ a = OpenAiSendTruncate item 0 (latestMediaTimestamp s - t)
        ∧ 0 ≤ latestMediaTimestamp s - t.
Proof.
  intros Hh Hs0 Hmono s Hnz sent.
  assert (Hinv : start_not_later s) by by eapply start_not_later_run.
  subst sent. rewrite (tracked_speech_started JSON_parse handle); [|done].
  rewrite speech_started_sends. unfold start_not_later in Hinv.
  cbn [truncations List.filter is_truncate snd].
  destruct (markQueue s) as [|q qs] eqn:Hq; simpl.
  { split_and!; [split; [done | by intros (? & _)] | lia
                | by intros a Ha%elem_of_nil]. }
  destruct (responseStartTimestampTwilio s) as [t|] eqn:Ht; simpl.
  2:{ split_and!; [split; [done | by intros (_ & [? ?] & _)] | lia
                  | by intros a Ha%elem_of_nil]. }
  assert (t ≠ 0) by congruence.
  destruct (Z.eqb_spec t 0) as [|_]; [done|]; simpl.
  destruct (lastAssistantItem s) as [item|] eqn:Hi; simpl.
  2:{ split_and!; [split; [done | by intros (_ & _ & ?)] | lia
                  | by intros a Ha%elem_of_nil]. }
  destruct (negb (item =? "")%string) eqn:Hne; simpl.
  - split_and!; [split; [by eauto | done] | lia |].
    intros a ->%list_elem_of_singleton. exists item, t.
    split_and!; [done | done | done | lia].
  - split_and!; [split; [done | by intros (_ & _ & ?)] | lia
                | by intros a Ha%elem_of_nil].
Qed.

(** The arithmetic of the instruction, from a state in which a marker is
    queued: the playback of item I1 started at 100 ms, the caller cuts in at
    350 ms. *)
Example barge_in_truncates_I1_at_250 :
  truncations
    (run (Part001.handle parse_json) (set_markQueue ["m1"] initial)
       (barge_in_session ++ [speech_started_frame None None None])).2
  = [OpenAiSendTruncate "I1" 0 250].
Proof. vm_compute. reflexivity. Qed.



(** The session of the barge-in, from the initial state: the playback start
    is recorded at 100 ms and the clock is at 350 ms, but no marker was ever
    queued, and the speech-started frame sends nothing. *)
Example barge_in_from_initial :
  let s := (run (Part001.handle parse_json) initial barge_in_session).1 in
  responseStartTimestampTwilio s = Some 100
  ∧ latestMediaTimestamp s = 350
  ∧ markQueue s = []
  ∧ truncations
      (Part001.handle parse_json s (speech_started_frame None None None)).2
    = [].
Proof. vm_compute. done. Qed.

(** C6.  When a speech-started frame makes the bridge send a truncate
    instruction, the marker queue, the active item id and the playback start
    are cleared by the same step; and whatever events follow (audio deltas
    included, as nothing refills the queue), no speech-started frame ever
    sends a second one. *)
Theorem truncate_clears_and_is_not_repeated
    (JSON_parse : string → option json)
    (handle : Session → Event → Session * list Action)
    (s : Session) (evs : list Event)
    (d i d' i' : option string) (c c' : option (list ContentPart)) :
  handle = Part001.handle JSON_parse ∨ handle = IndexJsB.handle →
  let r := handle s (speech_started_frame d i c) in
  truncations r.2 ≠ [] →
  (markQueue r.1 = [] ∧ lastAssistantItem r.1 = None
   ∧ responseStartTimestampTwilio r.1 = None)
  ∧ truncations
      (run handle r.1 (evs ++ [speech_started_frame d' i' c'])).2 = [].
Proof.
  intros Hh r Hsent.
  assert (Hclear : markQueue r.1 = [] ∧ lastAssistantItem r.1 = None
                   ∧ responseStartTimestampTwilio r.1 = None).
  { subst r. revert Hsent.
    rewrite (tracked_speech_started JSON_parse handle); [|done].
    rewrite speech_started_sends.
    cbn [truncations List.filter is_truncate snd fst].
    by destruct (_ && _). }
  split; [done|].
  apply (run_queue_safe handle); [|by apply Hclear].
  intros e. by eapply tracked_queue_safe.
Qed.

Lemma truncate_clears_and_is_not_repeated_witness :
  let handle := Part001.handle parse_json in
  let s := (run handle (set_markQueue ["m1"] initial) barge_in_session).1 in
  let r := handle s (speech_started_frame None None None) in
  truncations r.2 ≠ []
  ∧ (markQueue r.1 = [] ∧ lastAssistantItem r.1 = None
     ∧ responseStartTimestampTwilio r.1 = None)
  ∧ truncations
      (run handle r.1
         ([media_frame 400 "CCCC"] ++ [speech_started_frame None None None])).2
    = [].
Proof.
  intros handle s r.
  assert (H : truncations r.2 ≠ []) by (vm_compute; discriminate).
  split; [exact H|].
  exact (truncate_clears_and_is_not_repeated parse_json handle s
           [media_frame 400 "CCCC"] None None None None None None
           (or_introl eq_refl) H).
Defined.

Lemma forget_zero_start_set v s :
  v = Some 0 ∨ v = None →
  forget_zero_start (set_responseStartTimestampTwilio v s) =
  set_responseStartTimestampTwilio None s.
Proof. by intros [-> | ->]. Qed.

(** Two sessions that differ only in that one has recorded the playback
    start 0 and the other has recorded none. *)
Lemma zero_start_step JSON_parse handle s e v :
  handle = Part001.handle JSON_parse ∨ handle = IndexJsB.handle →
  v = Some 0 ∨ v = None →
  let zero := set_responseStartTimestampTwilio v s in
  let unset := set_responseStartTimestampTwilio None s in
  (handle zero e).2 = (handle unset e).2
  ∧ forget_zero_start (handle zero e).1 = forget_zero_start (handle unset e).1.
Proof.
  intros Hh Hv zero unset.
  destruct Hh as [-> | ->]; destruct Hv as [-> | ->]; try done;
    destruct e as [|[msg|]| | |[data|]| |[]|]; simpl; try done;
    unfold Part001.openai_message, IndexJsB.openai_message,
      Part001.connection_closed, IndexJsB.connection_closed;
    rewrite ?seq_eq; simpl; step_cases.
Qed.

(** C10.  A recorded playback start of 0 behaves as no recorded start.  If
    the first audio delta arrives while the caller's clock is 0, the start
    recorded is 0; the next audio delta then overwrites it with the clock of
    that moment; a speech-started frame arriving while the start is 0 sends
    nothing and changes nothing, whatever the marker queue and the active
    item id hold; and on every event the session with start 0 performs the
    same effects as the session with no start, and the two end in states that
    again differ at most in that way. *)
Theorem zero_start_is_unset (JSON_parse : string → option json)
    (handle : Session → Event → Session * list Action)
    (s : Session) (e : Event) (x : ascii) (dx : string)
    (d i j : option string) (c k : option (list ContentPart)) :
  handle = Part001.handle JSON_parse ∨ handle = IndexJsB.handle →
  let zero := set_responseStartTimestampTwilio (Some 0) s in
  let unset := set_responseStartTimestampTwilio None s in
  responseStartTimestampTwilio
    (handle (set_latestMediaTimestamp 0 unset) (audio_delta_frame x dx j k)).1
  = Some 0
  ∧ responseStartTimestampTwilio (handle zero (audio_delta_frame x dx j k)).1
    = Some (latestMediaTimestamp s)
  ∧ (handle zero (speech_started_frame d i c)).1 = zero
  ∧ truncations (handle zero (speech_started_frame d i c)).2 = []
  ∧ (handle zero e).2 = (handle unset e).2
  ∧ forget_zero_start (handle zero e).1 = forget_zero_start (handle unset e).1.
Proof.
  intros Hh zero unset.
  split_and!.
  - destruct Hh as [-> | ->]; simpl;
      unfold Part001.openai_message, IndexJsB.openai_message;
      rewrite ?seq_eq; simpl; step_cases.
  - destruct Hh as [-> | ->]; simpl;
      unfold Part001.openai_message, IndexJsB.openai_message;
      rewrite ?seq_eq; simpl; step_cases.
  - rewrite (tracked_speech_started JSON_parse handle); [|done].
    rewrite speech_started_sends. simpl. by rewrite andb_false_r.
  - rewrite (tracked_speech_started JSON_parse handle); [|done].
    rewrite speech_started_sends. simpl. by rewrite andb_false_r.
  - by apply (zero_start_step JSON_parse handle s e (Some 0)); [|left].
  - by apply (zero_start_step JSON_parse handle s e (Some 0)); [|left].
Qed.

Lemma zero_start_is_unset_witness :
  let handle := IndexJsB.handle in
  let s := set_lastAssistantItem (Some "I1")
             (set_markQueue ["m1"] (set_latestMediaTimestamp 40 initial)) in
  let zero := set_responseStartTimestampTwilio (Some 0) s in
  responseStartTimestampTwilio
    (handle zero (audio_delta_frame "x" "yz" (Some "I1") None)).1 = Some 40
  ∧ (handle zero (speech_started_frame None None None)).1 = zero
  ∧ truncations (handle zero (speech_started_frame None None None)).2 = [].
Proof.
  intros handle s zero.
  destruct (zero_start_is_unset parse_json handle s OnOpenAiOpen "x" "yz"
              None None (Some "I1") None None (or_intror eq_refl))
    as (_ & H2 & H3 & H4 & _).
  exact (conj H2 (conj H3 H4)).
Defined.

(** In a session from the initial state: the AI speaks before any caller
    audio has arrived, the start recorded is 0, and the audio delta that
    follows the first media frame records the start again. *)
Example zero_start_overwritten :
  let s1 := (run IndexJsB.handle initial
               [ OnOpenAiOpen; start_frame "S1" None;
                 audio_delta_frame "x" "yz" (Some "I1") None ]).1 in
  let s2 := (run IndexJsB.handle s1
               [ media_frame 20 "AAAA";
                 audio_delta_frame "x" "yz" (Some "I1") None ]).1 in
  responseStartTimestampTwilio s1 = Some 0
  ∧ responseStartTimestampTwilio s2 = Some 20.
Proof. vm_compute. done. Qed.

(** C7, as the code has it.  A [start] frame makes every variant capture the
    stream identifier.  The two playback-tracking variants also put the
    caller's clock back to 0 and unset the playback start, and leave the
    active item id and the marker queue as they were.  The first document of
    index.js and part_000 change nothing but the stream identifier. *)
Theorem start_frame_effect (JSON_parse : string → option json)
    (s : Session) (sid : string) (m : option Media) :
  let reset :=
    set_responseStartTimestampTwilio None
      (set_latestMediaTimestamp 0 (set_streamSid (Some sid) s)) in
  (Part001.handle JSON_parse s (start_frame sid m)).1 = reset
  ∧ (IndexJsB.handle s (start_frame sid m)).1 = reset
  ∧ (IndexJs.handle JSON_parse s (start_frame sid m)).1
    = set_streamSid (Some sid) s
  ∧ (Part000.handle JSON_parse s (start_frame sid m)).1
    = set_streamSid (Some sid) s
  ∧ streamSid reset = Some sid
  ∧ latestMediaTimestamp reset = 0
  ∧ responseStartTimestampTwilio reset = None
  ∧ lastAssistantItem reset = lastAssistantItem s
  ∧ markQueue reset = markQueue s.
Proof. by split_and!. Qed.

(** C7, refuted as stated: after an audio delta of item I1, a [start] frame
    leaves the active item id recorded; and from a state with a marker
    queued, it leaves the marker queued. *)
Lemma start_frame_keeps_item_and_queue :
  lastAssistantItem
    (run (Part001.handle parse_json) initial
       [ audio_delta_frame "x" "yz" (Some "I1") None;
         start_frame "S2" None ]).1 = Some "I1"
  ∧ markQueue
      (Part001.handle parse_json (set_markQueue ["m1"] initial)
         (start_frame "S2" None)).1 = ["m1"].
Proof. vm_compute. done. Qed.

(** ** The structured record *)

Lemma Object_values_elem (o : gmap string json) v :
  In v (Object_values o) ↔ ∃ k, o !! k = Some v.
Proof.
  unfold Object_values. rewrite <- list_elem_of_In, list_elem_of_fmap.
  split.
  - intros ([k v'] & -> & Hin). exists k. by apply elem_of_map_to_list.
  - intros [k Hk]. exists (k, v). split; [done|].
    by apply elem_of_map_to_list.
Qed.

Lemma allFilled_spec (o : gmap string json) :
  allFilled o = true ↔ ∀ k v, o !! k = Some v → truthy v = true.
Proof.
  unfold allFilled. rewrite forallb_forall. split.
  - intros H k v Hk. apply H, Object_values_elem. by exists k.
  - intros H v [k Hk]%Object_values_elem. by eapply H.
Qed.

Lemma some_truthy_spec (o : gmap string json) :
  some_truthy o = true ↔ ∃ k v, o !! k = Some v ∧ truthy v = true.
Proof.
  unfold some_truthy. rewrite existsb_exists. split.
  - intros (v & [k Hk]%Object_values_elem & Hv). by exists k, v.
  - intros (k & v & Hk & Hv). exists v. split; [|done].
    apply Object_values_elem. by exists k.
Qed.

Lemma lookup_spread (a : gmap string json) (b : json) k :
  spread a b !! k =
  match own_props b !! k with Some v => Some v | None => a !! k end.
Proof.
  unfold spread. rewrite lookup_union.
  by destruct (own_props b !! k), (a !! k).
Qed.

Lemma lookup_foldl_spread (u : gmap string json) (frs : list json) k :
  foldl spread u frs !! k =
  match last_write frs k with Some v => Some v | None => u !! k end.
Proof.
  revert u. induction frs as [|f frs IH]; intros u; simpl; [done|].
  rewrite IH, lookup_spread. by destruct (last_write frs k).
Qed.

Lemma initial_userData_fields k :
  k ∈ FIELDS → initial_userData !! k = Some JNull.
Proof.
  unfold FIELDS. set_unfold.
  intros [-> | [-> | [-> | [-> | [-> | []]]]]]; done.
Qed.

Lemma initial_userData_only_fields k v :
  initial_userData !! k = Some v → k ∈ FIELDS.
Proof.
  unfold initial_userData, FIELDS. rewrite !lookup_insert, lookup_empty.
  repeat case_decide; subst; set_solver.
Qed.

(** The extractor merges what [extracted_of] names, and nothing else. *)
Lemma extract_text_delta_userData JSON_parse msg s :
  userData (extract_text_delta JSON_parse msg s).1 =
  match extracted_of JSON_parse (OnOpenAiMessage (Some msg)) with
  | Some v => spread (userData s) v
  | None => userData s
  end.
Proof.
  unfold extract_text_delta, extracted_of.
  destruct (_ && truthy_str _); simpl; [|done].
  destruct (startsWith _ _); simpl; [|done].
  destruct (endsWith _ _); simpl; [|done].
  by destruct (JSON_parse _).
Qed.

Lemma userData_relay_audio msg s : userData (relay_audio msg s).1 = userData s.
Proof. unfold relay_audio. by destruct (audio_delta msg). Qed.

Lemma userData_confirm_if_filled s :
  userData (confirm_if_filled s).1 = userData s.
Proof. unfold confirm_if_filled. by destruct (allFilled _). Qed.

Lemma userData_close_openai s : userData (close_openai s).1 = userData s.
Proof. unfold close_openai. by destruct (is_open _). Qed.

Lemma userData_step JSON_parse handle s e :
  handle = IndexJs.handle JSON_parse ∨ handle = Part000.handle JSON_parse →
  userData (handle s e).1 =
  match extracted_of JSON_parse e with
  | Some v => spread (userData s) v
  | None => userData s
  end.
Proof.
  intros [-> | ->]; destruct e as [|[msg|]| | |[d|]| |[]|]; simpl; try done;
    unfold IndexJs.openai_message, IndexJs.connection_closed,
      IndexJs.check_all_filled, IndexJs.partial_handoff,
      Part000.openai_message, Part000.connection_closed,
      Part000.check_completed;
    rewrite ?seq_eq; simpl;
    step_cases.
Qed.

Lemma userData_run JSON_parse handle s evs :
  handle = IndexJs.handle JSON_parse ∨ handle = Part000.handle JSON_parse →
  userData (run handle s evs).1 =
  foldl spread (userData s) (extracted JSON_parse evs).
Proof.
  intros Hh. revert s. induction evs as [|e evs IH]; intros s; [done|].
  rewrite run_cons; simpl. rewrite IH, (userData_step JSON_parse); [|done].
  unfold extracted; simpl. by destruct (extracted_of JSON_parse e).
Qed.

(** C4, as the code has it.  In both variants that keep the record, after
    any events of a session each key of the record holds the value that the
    last parsed fragment carrying that key gave it (and [null] if it is one
    of the five fields and no fragment carried it); and the record is judged
    complete exactly when each of the five fields was given a truthy value
    and every other key that a fragment has merged holds a truthy value as
    well.  Neither the number of fragments nor the order in which different
    keys arrive matters. *)
Theorem record_complete_iff (JSON_parse : string → option json)
    (handle : Session → Event → Session * list Action) (evs : list Event) :
  handle = IndexJs.handle JSON_parse ∨ handle = Part000.handle JSON_parse →
  let u := userData (run handle initial evs).1 in
  let frs := extracted JSON_parse evs in
  (∀ k, u !! k = match last_write frs k with
                 | Some v => Some v
                 | None => initial_userData !! k
                 end)
  ∧ (allFilled u = true ↔
       (∀ k, k ∈ FIELDS → ∃ v, last_write frs k = Some v ∧ truthy v = true)
       ∧ (∀ k v, last_write frs k = Some v → truthy v = true)).
Proof.
  intros Hh u frs.
  assert (Hu : ∀ k, u !! k = match last_write frs k with
                             | Some v => Some v
                             | None => initial_userData !! k
                             end).
  { intros k. subst u frs. rewrite (userData_run JSON_parse); [|done].
    apply lookup_foldl_spread. }
  split; [done|]. rewrite allFilled_spec. split.
  - intros Hall. split.
    + intros k Hk. specialize (Hu k).
      destruct (last_write frs k) as [v|] eqn:Hlw.
      * exists v. split; [done|]. by apply (Hall k).
      * rewrite (initial_userData_fields k Hk) in Hu.
        by specialize (Hall k JNull Hu).
    + intros k v Hlw. apply (Hall k). by rewrite Hu, Hlw.
  - intros [Hfields Hother] k v Hk. rewrite Hu in Hk.
    destruct (last_write frs k) as [w|] eqn:Hlw.
    + simplify_eq. by apply (Hother k).
    + apply initial_userData_only_fields in Hk.
      destruct (Hfields k Hk) as (w & Hw & _). congruence.
Qed.

Lemma record_complete_iff_witness :
  let handle := IndexJs.handle parse_json in
  let u := userData (run handle initial three_fragments).1 in
  let frs := extracted parse_json three_fragments in
  (∀ k, u !! k = match last_write frs k with
                 | Some v => Some v
                 | None => initial_userData !! k
                 end)
  ∧ (allFilled u = true ↔
       (∀ k, k ∈ FIELDS → ∃ v, last_write frs k = Some v ∧ truthy v = true)
       ∧ (∀ k v, last_write frs k = Some v → truthy v = true)).
Proof.
  intros handle.
  exact (record_complete_iff parse_json handle three_fragments
           (or_introl eq_refl)).
Defined.

Example three_fragments_complete :
  let r := run (IndexJs.handle parse_json) initial three_fragments in
  allFilled (userData r.1) = true
  ∧ allConfirmed r.1 = true
  ∧ List.filter (λ a, negb (match a with ConsoleLog _ => true | _ => false end))
      r.2
    = [ SendToSlack (Some (JStr "Jo")) (Some (JStr "a@b.com"))
          (Some (JStr "x")) (Some (JStr "3pm")) (Some (JStr "foo.com"));
        ConnectionSendFarewell; SetTimeout connection_close 2000 ].
Proof. vm_compute. done. Qed.

(** C4, refuted as stated: all five fields hold non-empty values, and the
    record is not judged complete, because the same fragment carried a sixth
    key whose value is [null]. *)
Lemma complete_blocked_by_sixth_key :
  let r := run (IndexJs.handle parse_json) initial
             [ text_delta_frame
                 (js "{'name':'Jo','email':'a@b.com','problem':'x','time':'3pm','tcp':'foo.com','foo':null}") ] in
  (userData r.1 !! "name" = Some (JStr "Jo")
   ∧ userData r.1 !! "email" = Some (JStr "a@b.com")
   ∧ userData r.1 !! "problem" = Some (JStr "x")
   ∧ userData r.1 !! "time" = Some (JStr "3pm")
   ∧ userData r.1 !! "tcp" = Some (JStr "foo.com"))
  ∧ allFilled (userData r.1) = false
  ∧ allConfirmed r.1 = false
  ∧ handoffs r.2 = 0%nat.
Proof. vm_compute. done. Qed.

(** C5, as the code has it.  On a text delta the extractor consults
    [JSON.parse] only when the trimmed text starts with an opening and ends
    with a closing brace: otherwise the outcome is the same for every parser,
    namely no change and no effect.  When the parse fails the record is left
    as it was and nothing is logged.  When it succeeds every key of the parsed
    object, one of the five fields or not, is written into the record, and
    the keys that the object does not carry keep their values. *)
Theorem extractor_contract (JSON_parse : string → option json)
    (s : Session) (d : string) (i : option string)
    (c : option (list ContentPart)) :
  let partial := trim d in
  let braces := startsWith partial "{" && endsWith partial "}" in
  let r := extract_text_delta JSON_parse (text_delta_msg d i c) s in
  (braces = false →
     ∀ other_parse,
       extract_text_delta other_parse (text_delta_msg d i c) s = (s, []))
  ∧ (braces = true → JSON_parse partial = None → r = (s, []))
  ∧ (∀ parsed, braces = true → JSON_parse partial = Some parsed →
       r.1 = set_userData (spread (userData s) parsed) s
       ∧ ∀ k, userData r.1 !! k =
              match own_props parsed !! k with
              | Some v => Some v
              | None => userData s !! k
              end).
Proof.
  intros partial braces r. subst r. unfold extract_text_delta; simpl.
  fold partial. change (startsWith partial "{" && endsWith partial "}")
    with braces.
  split_and!.
  - intros ->. intros other. by destruct (negb _).
  - intros -> ->. by destruct (negb _).
  - intros parsed Hb Hp.
    assert (Hd : negb (d =? "")%string = true).
    { destruct d; [|done]. unfold braces, partial in Hb.
      by vm_compute in Hb. }
    rewrite Hd, Hb, Hp. simpl. split; [done|]. intros k.
    apply lookup_spread.
Qed.

Lemma extractor_contract_witness :
  extract_text_delta parse_json (text_delta_msg "Hello there" None None)
    initial = (initial, [])
  ∧ extract_text_delta parse_json
      (text_delta_msg (js "{'name':}") None None) initial = (initial, [])
  ∧ userData
      (extract_text_delta parse_json
         (text_delta_msg (js "  {'name':'Jo'} ") None None) initial).1
    !! "name" = Some (JStr "Jo").
Proof.
  split_and!.
  - exact (proj1 (extractor_contract parse_json initial "Hello there" None
                    None) eq_refl parse_json).
  - exact (proj1 (proj2 (extractor_contract parse_json initial
                           (js "{'name':}") None None)) eq_refl eq_refl).
  - exact (proj2 (proj2 (proj2 (extractor_contract parse_json initial
                                  (js "  {'name':'Jo'} ") None None))
                    (JObj (<["name" := JStr "Jo"]> ∅)) eq_refl eq_refl)
             "name").
Defined.

(** The white space that is trimmed is that of the language, beyond ASCII:
    a fragment wrapped in no-break spaces, a byte order mark or a line
    separator is parsed and merged; white space inside the text, and letters
    outside ASCII at its ends, are kept. *)
Example trim_beyond_ascii :
  trim (NBSP +:+ " " +:+ BOM +:+ js "{'name':'Jo'}" +:+ LINE_SEPARATOR
        +:+ NBSP) = js "{'name':'Jo'}"
  ∧ userData
      (extract_text_delta parse_json
         (text_delta_msg (NBSP +:+ js "{'name':'Jo'}" +:+ NBSP) None None)
         initial).1 !! "name" = Some (JStr "Jo")
  ∧ trim (" a" +:+ NBSP +:+ "b ") = "a" +:+ NBSP +:+ "b"
  ∧ trim (E_ACUTE +:+ "t" +:+ A_GRAVE) = E_ACUTE +:+ "t" +:+ A_GRAVE.
Proof. vm_compute. done. Qed.

(** C5, refuted as stated: a key that is none of the five fields is not
    ignored; it is written into the record like any other. *)
Lemma unrecognized_key_is_merged :
  let u := userData
             (extract_text_delta parse_json
                (text_delta_msg (js "{'foo':'bar'}") None None) initial).1 in
  initial_userData !! "foo" = None ∧ u !! "foo" = Some (JStr "bar").
Proof. vm_compute. done. Qed.

(** ** The hand-off to the notification sink *)

Lemma flag_safe_seq f g : flag_safe f → flag_safe g → flag_safe (f >>> g).
Proof.
  intros Hf Hg s Hs. rewrite seq_eq; simpl.
  destruct (Hf s Hs) as [H1 H2]. destruct (Hg _ H1) as [H3 H4].
  by rewrite handoffs_app, H2, H4.
Qed.

Lemma flag_led_seq f g :
  flag_led f → flag_led g → flag_safe g → flag_led (f >>> g).
Proof.
  intros Hf Hg Hs s. rewrite seq_eq; simpl. rewrite handoffs_app.
  destruct (Hf s) as [Hf1 Hf0]. destruct (Hg (f s).1) as [Hg1 Hg0].
  destruct (allConfirmed (f s).1) eqn:Hflag.
  - destruct (Hs _ Hflag) as [-> ->]. split; [lia | done].
  - rewrite Hf0; [|done]. split; [lia | by intros ?%Hg0].
Qed.

Lemma flag_safe_emit a : handoffs a = 0%nat → flag_safe (emit a).
Proof. by intros Ha s Hs. Qed.

Lemma flag_led_emit a : handoffs a = 0%nat → flag_led (emit a).
Proof. intros Ha s. simpl. rewrite Ha. split; [lia | done]. Qed.

Lemma flag_safe_relay_audio msg : flag_safe (relay_audio msg).
Proof. intros s Hs. step_cases. Qed.

Lemma flag_led_relay_audio msg : flag_led (relay_audio msg).
Proof. intros s. step_cases; unfold handoffs; simpl; split; (lia || done). Qed.

Lemma flag_safe_extract JSON_parse msg :
  flag_safe (extract_text_delta JSON_parse msg).
Proof. intros s Hs. step_cases. Qed.

Lemma flag_led_extract JSON_parse msg :
  flag_led (extract_text_delta JSON_parse msg).
Proof. intros s. step_cases; unfold handoffs; simpl; split; (lia || done). Qed.

Lemma flag_safe_check_all_filled : flag_safe IndexJs.check_all_filled.
Proof. intros s Hs. unfold IndexJs.check_all_filled. by rewrite Hs. Qed.

Lemma flag_led_check_all_filled : flag_led IndexJs.check_all_filled.
Proof. intros s. step_cases; unfold handoffs; simpl; split; (lia || done). Qed.

Lemma flag_safe_check_completed msg : flag_safe (Part000.check_completed msg).
Proof.
  intros s Hs. unfold Part000.check_completed.
  by rewrite Hs, andb_false_r.
Qed.

Lemma flag_led_check_completed msg : flag_led (Part000.check_completed msg).
Proof. intros s. step_cases; unfold handoffs; simpl; split; (lia || done). Qed.

Lemma flag_safe_partial_handoff : flag_safe IndexJs.partial_handoff.
Proof. intros s Hs. unfold IndexJs.partial_handoff. by rewrite Hs. Qed.

Lemma flag_safe_close_openai : flag_safe close_openai.
Proof. intros s Hs. step_cases. Qed.

Lemma flag_safe_close_unless_awaiting :
  flag_safe IndexJs.close_unless_awaiting.
Proof. intros s Hs. step_cases. Qed.

Lemma flag_led_close_openai : flag_led close_openai.
Proof. intros s. step_cases; unfold handoffs; simpl; split; (lia || done). Qed.

Lemma flag_safe_connection_message_index data :
  flag_safe (IndexJs.connection_message data).
Proof. intros s Hs. step_cases. Qed.

Lemma flag_led_connection_message_index data :
  flag_led (IndexJs.connection_message data).
Proof. intros s. step_cases; unfold handoffs; simpl; split; (lia || done). Qed.

Lemma flag_safe_connection_message_part000 data :
  flag_safe (Part000.connection_message data).
Proof. intros s Hs. step_cases. Qed.

Lemma flag_led_connection_message_part000 data :
  flag_led (Part000.connection_message data).
Proof. intros s. step_cases; unfold handoffs; simpl; split; (lia || done). Qed.

#[export] Hint Resolve flag_safe_seq flag_led_seq flag_safe_emit flag_led_emit
  flag_safe_relay_audio flag_led_relay_audio flag_safe_extract
  flag_led_extract flag_safe_check_all_filled flag_led_check_all_filled
  flag_safe_check_completed flag_led_check_completed
  flag_safe_partial_handoff flag_safe_close_openai flag_led_close_openai
  flag_safe_close_unless_awaiting
  flag_safe_connection_message_index flag_led_connection_message_index
  flag_safe_connection_message_part000 flag_led_connection_message_part000
  : bridge.

(** In the two variants that keep the completion flag, once the flag is set
    a step leaves it set and hands nothing off. *)
Lemma flag_kept JSON_parse handle s e :
  handle = IndexJs.handle JSON_parse ∨ handle = Part000.handle JSON_parse →
  allConfirmed s = true →
  allConfirmed (handle s e).1 = true ∧ handoffs (handle s e).2 = 0%nat.
Proof.
  intros Hh. revert s. change (flag_safe (λ s, handle s e)).
  destruct Hh as [-> | ->]; destruct e as [|[msg|]| | | | |[]|]; simpl;
    unfold IndexJs.openai_message, IndexJs.connection_closed,
      IndexJs.hangup_resumed,
      Part000.openai_message, Part000.connection_closed;
    eauto 8 with bridge; by intros s Hs.
Qed.

(** A step other than the caller's hang-up hands off at most once, and only
    by setting the flag. *)
Lemma handoff_sets_flag JSON_parse handle s e :
  handle = IndexJs.handle JSON_parse ∨ handle = Part000.handle JSON_parse →
  e ≠ OnConnectionClose →
  (handoffs (handle s e).2 ≤ 1)%nat
  ∧ (allConfirmed (handle s e).1 = false → handoffs (handle s e).2 = 0%nat).
Proof.
  intros Hh He. revert s. change (flag_led (λ s, handle s e)).
  destruct Hh as [-> | ->]; destruct e as [|[msg|]| | | | |[]|]; simpl;
    unfold IndexJs.openai_message, IndexJs.hangup_resumed,
      Part000.openai_message;
    try done; eauto 10 with bridge;
    intros s; unfold handoffs; simpl; split; (lia || done).
Qed.

Lemma flag_kept_run JSON_parse handle s evs :
  handle = IndexJs.handle JSON_parse ∨ handle = Part000.handle JSON_parse →
  allConfirmed s = true →
  allConfirmed (run handle s evs).1 = true
  ∧ handoffs (run handle s evs).2 = 0%nat.
Proof.
  intros Hh. revert s. induction evs as [|e evs IH]; intros s Hs; [done|].
  rewrite run_cons; simpl.
  destruct (flag_kept JSON_parse handle s e Hh Hs) as [H1 H2].
  destruct (IH _ H1) as [H3 H4]. by rewrite handoffs_app, H2, H4.
Qed.

Lemma no_handoff_while_flag_false JSON_parse handle s evs :
  handle = IndexJs.handle JSON_parse ∨ handle = Part000.handle JSON_parse →
  Forall (λ e, e ≠ OnConnectionClose) evs →
  allConfirmed (run handle s evs).1 = false →
  handoffs (run handle s evs).2 = 0%nat.
Proof.
  intros Hh Hevs. revert s.
  induction Hevs as [|e evs He Hevs IH]; intros s Hf; [done|].
  rewrite run_cons in *; simpl in *. rewrite handoffs_app.
  destruct (allConfirmed (handle s e).1) eqn:Hflag.
  - destruct (flag_kept_run JSON_parse handle _ evs Hh Hflag). congruence.
  - destruct (handoff_sets_flag JSON_parse handle s e Hh He) as [_ H0].
    by rewrite H0, IH.
Qed.

Lemma at_most_one_handoff_before_hangup JSON_parse handle s evs :
  handle = IndexJs.handle JSON_parse ∨ handle = Part000.handle JSON_parse →
  Forall (λ e, e ≠ OnConnectionClose) evs →
  (handoffs (run handle s evs).2 ≤ 1)%nat.
Proof.
  intros Hh Hevs. revert s.
  induction Hevs as [|e evs He Hevs IH]; intros s; [unfold handoffs; simpl; lia|].
  rewrite run_cons; simpl. rewrite handoffs_app.
  destruct (handoff_sets_flag JSON_parse handle s e Hh He) as [H1 H0].
  destruct (allConfirmed (handle s e).1) eqn:Hflag.
  - destruct (flag_kept_run JSON_parse handle _ evs Hh Hflag) as [_ ->]. lia.
  - rewrite H0; [|done]. apply IH.
Qed.

(** What the hang-up handler of index.js (first document) hands off. *)
Lemma hangup_handoff JSON_parse s :
  (IndexJs.handle JSON_parse s OnConnectionClose).2 =
  [ConsoleLog "Client disconnected from media-stream"]
  ++ (if negb (allConfirmed s) && some_truthy (userData s)
      then [ConsoleLog "Sending partial data to Slack...";
            sendToSlack (userData s)]
      else if is_open (readyState s) then [OpenAiClose] else []).
Proof.
  simpl. unfold IndexJs.connection_closed, IndexJs.partial_handoff,
    IndexJs.close_unless_awaiting.
  rewrite !seq_eq; simpl.
  destruct (negb (allConfirmed s) && some_truthy (userData s)) eqn:Hp;
    simpl; rewrite Hp; [done|].
  unfold close_openai; by destruct (is_open _).
Qed.

(** In the two variants with the flag, a session that ends with the caller's
    hang-up hands the record off at most once. *)
Lemma at_most_one_handoff JSON_parse handle evs :
  handle = IndexJs.handle JSON_parse ∨ handle = Part000.handle JSON_parse →
  Forall (λ e, e ≠ OnConnectionClose) evs →
  (handoffs (run handle initial (evs ++ [OnConnectionClose])).2 ≤ 1)%nat.
Proof.
  intros Hh Hevs. rewrite run_snoc; simpl. rewrite handoffs_app.
  pose proof (at_most_one_handoff_before_hangup JSON_parse handle initial
                evs Hh Hevs) as H1.
  destruct (allConfirmed (run handle initial evs).1) eqn:Hflag.
  - destruct (flag_kept JSON_parse handle _ OnConnectionClose Hh Hflag)
      as [_ ->]. lia.
  - rewrite (no_handoff_while_flag_false JSON_parse handle initial evs);
      [|done..].
    destruct Hh as [-> | ->].
    + rewrite hangup_handoff.
      destruct (negb _ && _); [|destruct (is_open _)];
        unfold handoffs; simpl; lia.
    + simpl. unfold Part000.connection_closed. rewrite seq_eq; simpl.
      unfold close_openai. destruct (is_open _); unfold handoffs; simpl; lia.
Qed.

(** The hypothesis that the hang-up comes last is needed for index.js: its
    hang-up handler hands a partial record off without setting the flag, so
    fragments still delivered by the AI socket afterwards can complete the
    record and hand it off again. *)
Example index_hands_off_again_after_hangup :
  handoffs
    (run (IndexJs.handle parse_json) initial
       [ OnOpenAiOpen; text_delta_frame (js "{'name':'Jo'}");
         OnConnectionClose;
         text_delta_frame
           (js "{'email':'a@b.com','problem':'x','time':'3pm','tcp':'foo.com'}")
       ]).2 = 2%nat.
Proof. vm_compute. done. Qed.

(** In part_001 a [response.completed] frame whose content parses hands the
    record off, whatever the state. *)
Lemma part001_completion_hands_off JSON_parse s parts aiContent :
  JSON_parse (Part001.content_text parts) = Some aiContent →
  List.filter is_slack
    (Part001.handle JSON_parse s (completed_frame (Some parts))).2
  = [sendToSlack (spread (userData s) aiContent)].
Proof.
  intros Hp. simpl. unfold Part001.openai_message. rewrite !seq_eq.
  unfold Part001.completed_handoff. simpl. by rewrite Hp.
Qed.

(** C3 fails in part_001: it keeps no completion flag, and every
    [response.completed] frame whose content parses hands the record off.
    Two such frames in one session: two hand-offs, two farewells, two
    scheduled closes. *)
Theorem part001_hands_off_on_every_completion :
  let done_ :=
    completed_frame (Some [mkPart (Some (js "{'name':'Jo'}"))]) in
  let r := run (Part001.handle parse_json) initial
             [OnOpenAiOpen; start_frame "S1" None; done_; done_] in
  handoffs r.2 = 2%nat
  ∧ List.filter is_slack r.2
    = [ SendToSlack (Some (JStr "Jo")) (Some JNull) (Some JNull) (Some JNull)
          (Some JNull);
        SendToSlack (Some (JStr "Jo")) (Some JNull) (Some JNull) (Some JNull)
          (Some JNull) ]
  ∧ allConfirmed r.1 = false.
Proof. vm_compute. done. Qed.

Ltac list_cases H :=
  repeat (apply elem_of_cons in H as [H | H]; [by subst|]);
  by apply elem_of_nil in H.

(** C8, as the code has it.  In index.js (first document), take a session
    that has seen no hang-up yet and whose completion flag is still false:
    nothing has been handed off so far.  When the caller hangs up, the record
    is handed off, once and as it stands, exactly when some value held in
    it, under one of the five fields or under any other key a fragment has
    merged, is truthy; otherwise nothing is handed off.  The hang-up sends no
    farewell and schedules no close.  The hang-up handlers of the other three
    variants hand nothing off in any state. *)
Theorem hangup_partial_handoff (JSON_parse : string → option json)
    (s0 s' : Session) (evs : list Event) :
  Forall (λ e, e ≠ OnConnectionClose) evs →
  let r := run (IndexJs.handle JSON_parse) s0 evs in
  allConfirmed r.1 = false →
  let out := (IndexJs.handle JSON_parse r.1 OnConnectionClose).2 in
  handoffs r.2 = 0%nat
  ∧ (handoffs out = 1%nat ↔
       ∃ k v, userData r.1 !! k = Some v ∧ truthy v = true)
  ∧ (handoffs out ≤ 1)%nat
  ∧ (∀ a, a ∈ out → is_slack a = true → a = sendToSlack (userData r.1))
  ∧ (ConnectionSendFarewell ∉ out)
  ∧ (∀ cb ms, SetTimeout cb ms ∉ out)
  ∧ handoffs (Part000.handle JSON_parse s' OnConnectionClose).2 = 0%nat
  ∧ handoffs (Part001.handle JSON_parse s' OnConnectionClose).2 = 0%nat
  ∧ handoffs (IndexJsB.handle s' OnConnectionClose).2 = 0%nat.
Proof.
  intros Hevs r Hflag out.
  assert (Hout : out =
    [ConsoleLog "Client disconnected from media-stream"]
    ++ (if some_truthy (userData r.1)
        then [ConsoleLog "Sending partial data to Slack...";
              sendToSlack (userData r.1)]
        else if is_open (readyState r.1) then [OpenAiClose] else [])).
  { subst out. by rewrite hangup_handoff, Hflag. }
  split_and!.
  - by apply (no_handoff_while_flag_false JSON_parse); [left|..].
  - rewrite <- some_truthy_spec, Hout.
    destruct (some_truthy _); [|destruct (is_open _)]; by vm_compute.
  - rewrite Hout.
    destruct (some_truthy _); [|destruct (is_open _)];
      unfold handoffs; simpl; lia.
  - rewrite Hout. intros a Ha Hs.
    destruct (some_truthy _); [|destruct (is_open _)];
      simpl in Ha; list_cases Ha.
  - rewrite Hout. unfold sendToSlack. intros Ha.
    destruct (some_truthy _); [|destruct (is_open _)];
      simpl in Ha; list_cases Ha.
  - rewrite Hout. unfold sendToSlack. intros cb ms Ha.
    destruct (some_truthy _); [|destruct (is_open _)];
      simpl in Ha; list_cases Ha.
  - simpl. unfold Part000.connection_closed. rewrite seq_eq.
    unfold close_openai, handoffs, emit. simpl.
    by destruct (is_open (readyState s')).
  - simpl. unfold Part001.connection_closed. rewrite seq_eq.
    unfold close_openai, handoffs, emit. simpl.
    by destruct (is_open (readyState s')).
  - simpl. unfold IndexJsB.connection_closed. rewrite seq_eq.
    unfold close_openai, handoffs, emit. simpl.
    by destruct (is_open (readyState s')).
Qed.

Lemma hangup_partial_handoff_witness :
  let evs := [ OnOpenAiOpen; start_frame "S1" None;
               text_delta_frame (js "{'name':'Jo'}") ] in
  let r := run (IndexJs.handle parse_json) initial evs in
  let out := (IndexJs.handle parse_json r.1 OnConnectionClose).2 in
  handoffs r.2 = 0%nat
  ∧ (handoffs out = 1%nat ↔
       ∃ k v, userData r.1 !! k = Some v ∧ truthy v = true)
  ∧ (handoffs out ≤ 1)%nat
  ∧ (∀ a, a ∈ out → is_slack a = true → a = sendToSlack (userData r.1))
  ∧ (ConnectionSendFarewell ∉ out)
  ∧ (∀ cb ms, SetTimeout cb ms ∉ out)
  ∧ handoffs (Part000.handle parse_json initial OnConnectionClose).2 = 0%nat
  ∧ handoffs (Part001.handle parse_json initial OnConnectionClose).2 = 0%nat
  ∧ handoffs (IndexJsB.handle initial OnConnectionClose).2 = 0%nat.
Proof.
  intros evs.
  refine (hangup_partial_handoff parse_json initial initial evs _ eq_refl).
  repeat constructor; discriminate.
Defined.

Example hangup_with_name_only :
  List.filter is_slack
    (run (IndexJs.handle parse_json) initial
       [ OnOpenAiOpen; start_frame "S1" None;
         text_delta_frame (js "{'name':'Jo'}"); OnConnectionClose ]).2
  = [SendToSlack (Some (JStr "Jo")) (Some JNull) (Some JNull) (Some JNull)
       (Some JNull)].
Proof. vm_compute. done. Qed.

Example hangup_with_nothing :
  handoffs
    (run (IndexJs.handle parse_json) initial
       [OnOpenAiOpen; start_frame "S1" None; OnConnectionClose]).2 = 0%nat.
Proof. vm_compute. done. Qed.

(** C8, refuted as stated.  In index.js (first document) a fragment that
    carries only a key outside the five fields makes the hang-up hand off a
    record in which none of the five fields is set.  In part_000 a hang-up
    with the flag false and a field set hands nothing off. *)
Lemma hangup_handoff_not_by_the_five_fields :
  (let r := run (IndexJs.handle parse_json) initial
              [ text_delta_frame (js "{'foo':'bar'}"); OnConnectionClose ] in
   allConfirmed r.1 = false
   ∧ List.filter is_slack r.2
     = [SendToSlack (Some JNull) (Some JNull) (Some JNull) (Some JNull)
          (Some JNull)])
  ∧ (let r := run (Part000.handle parse_json) initial
                [ text_delta_frame (js "{'name':'Jo'}"); OnConnectionClose ] in
     allConfirmed r.1 = false
     ∧ userData r.1 !! "name" = Some (JStr "Jo")
     ∧ handoffs r.2 = 0%nat).
Proof. vm_compute. done. Qed.

(** ** Start-up *)

(** C9, as the code has it.  In the three variants that use the notification
    sink, start-up with the credential or the endpoint URL missing (unset or
    empty) logs one error and exits with code 1 without ever listening, and
    start-up with both present goes on to listen.  The second document of
    index.js, which has no notification sink, asks for the credential only.
    Once listening has been attempted, the process exits exactly when
    listening fails. *)
Theorem startup_check (env : Env) (listen_err : bool) :
  let key := truthy_str (OPENAI_API_KEY env) in
  let url := truthy_str (SLACK_WEBHOOK_URL env) in
  (∀ startup,
     startup ∈ [IndexJs.startup; Part000.startup; Part001.startup] →
     (key && url = false →
        ∃ text, startup env listen_err = [ConsoleError text; ProcessExit 1])
     ∧ (key && url = true → startup env listen_err = listen listen_err))
  ∧ (key = false →
       ∃ text,
         IndexJsB.startup env listen_err = [ConsoleError text; ProcessExit 1])
  ∧ (key = true → IndexJsB.startup env listen_err = listen listen_err)
  ∧ FastifyListen ∈ listen listen_err
  ∧ (ProcessExit 1 ∈ listen listen_err ↔ listen_err = true).
Proof.
  intros key url. split_and!.
  - intros startup Hin. set_unfold.
    destruct Hin as [-> | [-> | [-> | []]]];
      unfold Part000.startup, IndexJs.startup, Part001.startup;
      fold key url; destruct key, url; simpl; split; intros; try done;
      by eexists.
  - unfold IndexJsB.startup. fold key. intros ->. by eexists.
  - unfold IndexJsB.startup. fold key. by intros ->.
  - unfold listen. set_solver.
  - unfold listen. destruct listen_err; split; intros Ha; try done;
      [apply list_elem_of_further, list_elem_of_further, list_elem_of_here
      | list_cases Ha].
Qed.

Lemma startup_check_witness :
  (∃ text,
     IndexJs.startup (mkEnv (Some "sk-test") None) false
     = [ConsoleError text; ProcessExit 1])
  ∧ Part001.startup
      (mkEnv (Some "sk-test") (Some "https://hooks.example/T")) false
    = listen false
  ∧ (∃ text,
       IndexJsB.startup (mkEnv None None) false
       = [ConsoleError text; ProcessExit 1])
  ∧ IndexJsB.startup (mkEnv (Some "sk-test") None) false = listen false
  ∧ ProcessExit 1 ∈ listen true.
Proof.
  split_and!.
  - refine (proj1 (proj1 (startup_check (mkEnv (Some "sk-test") None) false)
                     IndexJs.startup _) eq_refl).
    apply list_elem_of_here.
  - refine (proj2 (proj1 (startup_check
                            (mkEnv (Some "sk-test")
                               (Some "https://hooks.example/T")) false)
                     Part001.startup _) eq_refl).
    do 2 apply list_elem_of_further. apply list_elem_of_here.
  - exact (proj1 (proj2 (startup_check (mkEnv None None) false)) eq_refl).
  - exact (proj1 (proj2 (proj2 (startup_check (mkEnv (Some "sk-test") None)
                                  false))) eq_refl).
  - exact (proj2 (proj2 (proj2 (proj2 (proj2
             (startup_check (mkEnv None None) true))))) eq_refl).
Defined.

(** C9, refuted as stated.  The second document of index.js starts up and
    listens with the endpoint URL absent; and any variant, with both values
    present, exits when listening fails. *)
Lemma startup_without_url_listens :
  IndexJsB.startup (mkEnv (Some "sk-test") None) false
  = [FastifyListen; ConsoleLog "Server is listening on"]
  ∧ IndexJs.startup
      (mkEnv (Some "sk-test") (Some "https://hooks.example/T")) true
    = [FastifyListen; ConsoleError "listen"; ProcessExit 1].
Proof. done. Qed.

(** ** The two relays *)

Lemma emits_none_seq p f g :
  emits_none p f → emits_none p g → emits_none p (f >>> g).
Proof.
  intros Hf Hg s. rewrite seq_eq; simpl.
  by rewrite List.filter_app, Hf, Hg.
Qed.

Lemma keeps_seq {A : Type} (var : Session → A) f g :
  keeps var f → keeps var g → keeps var (f >>> g).
Proof. intros Hf Hg s. rewrite seq_eq; simpl. by rewrite Hg, Hf. Qed.

(** Goals about a chain of statements: split the chain, then go through the
    cases of each statement. *)
Ltac chain :=
  repeat first [apply emits_none_seq | apply keeps_seq];
  intros ?; step_cases; try done.

(** Two different tags for one frame. *)
Ltac tag_clash :=
  repeat match goal with
         | H : (_ =? _)%string = true |- _ => apply String.eqb_eq in H
         end;
  congruence.

Ltac open_variant H :=
  destruct H as [-> | [-> | [-> | ->]]].

Ltac open_handlers :=
  simpl;
  unfold IndexJs.openai_message, IndexJs.connection_closed,
    IndexJs.hangup_resumed,
    IndexJsB.openai_message, IndexJsB.connection_closed,
    Part000.openai_message, Part000.connection_closed,
    Part001.openai_message, Part001.connection_closed.

Lemma streamSid_step JSON_parse handle s e :
  is_variant JSON_parse handle →
  streamSid (handle s e).1 = next_streamSid (streamSid s) e.
Proof.
  intros Hv. open_variant Hv;
    destruct e as [|[msg|]| | |data| |[]|]; open_handlers; try done;
    try (revert s;
         match goal with
         | |- ∀ s, streamSid (?f s).1 = streamSid s =>
             change (keeps streamSid f)
         end; chain);
    rewrite ?seq_eq; step_cases; try done; tag_clash.
Qed.

Lemma relayed_step JSON_parse handle s e :
  is_variant JSON_parse handle →
  List.filter (λ a, negb (is_farewell a))
    (List.filter is_caller_media (handle s e).2)
  = relayed (streamSid s) [e].
Proof.
  intros Hv. open_variant Hv;
    destruct e as [|[msg|]| | |data| |[]|]; open_handlers; try done;
    rewrite ?seq_eq; step_cases; try done.
Qed.

Lemma relayed_cons sid e evs :
  relayed sid (e :: evs) = relayed sid [e] ++ relayed (next_streamSid sid e) evs.
Proof. simpl. by rewrite app_nil_r. Qed.

Lemma farewell_bounded_seq f g :
  farewell_bounded f → farewell_bounded g → farewell_bounded (f >>> g).
Proof.
  intros Hf Hg s. rewrite seq_eq. cbn [snd].
  rewrite List.filter_app, length_app, handoffs_app.
  specialize (Hf s). specialize (Hg (f s).1). lia.
Qed.

(** A step sends at most as many farewells as it hands off, and none
    unless it is a step on a frame of the AI session. *)
Lemma farewell_step JSON_parse handle s e :
  is_variant JSON_parse handle →
  (length (List.filter is_farewell (handle s e).2)
   ≤ handoffs (handle s e).2)%nat
  ∧ (is_openai_message e = false →
     List.filter is_farewell (handle s e).2 = []).
Proof.
  intros Hv. split.
  - revert s. change (farewell_bounded (λ s, handle s e)).
    open_variant Hv; destruct e as [|[msg|]| | |data| |[]|]; open_handlers;
      repeat apply farewell_bounded_seq; intros s;
      unfold handoffs, sendToSlack; step_cases; simpl; lia.
  - intros He. open_variant Hv;
      destruct e as [|[msg|]| | |data| |[]|]; try done; open_handlers;
      rewrite ?seq_eq; step_cases; try done.
Qed.

(** X3.  The [media] frames that a variant sends to the caller are of two
    kinds.  One is the farewell, which carries no stream identifier: it is
    sent only by a step on a frame of the AI session that hands the record
    off, so a session sends at most as many farewells as it makes hand-offs.
    All the others are the relayed audio: in order, the non-empty audio
    deltas of the AI session, payload unchanged, each tagged with the stream
    identifier of the last [start] frame received before it, and with that
    of the starting state (none, in a new session) if no [start] frame has
    been received yet. *)
Theorem openai_audio_relayed_with_streamSid
    (JSON_parse : string → option json)
    (handle : Session → Event → Session * list Action)
    (s : Session) (evs : list Event) :
  is_variant JSON_parse handle →
  let out := (run handle s evs).2 in
  List.filter (λ a, negb (is_farewell a)) (List.filter is_caller_media out)
  = relayed (streamSid s) evs
  ∧ streamSid (run handle s evs).1 = foldl next_streamSid (streamSid s) evs
  ∧ (length (List.filter is_farewell out) ≤ handoffs out)%nat
  ∧ ∀ t e, ConnectionSendFarewell ∈ (handle t e).2 →
      is_openai_message e = true ∧ (0 < handoffs (handle t e).2)%nat.
Proof.
  intros Hv out. subst out. split_and!.
  4:{ intros t e Hin.
      destruct (farewell_step JSON_parse handle t e Hv) as [Hle Hmsg].
      assert (ConnectionSendFarewell
              ∈ List.filter is_farewell (handle t e).2) as Hf.
      { apply list_elem_of_In, List.filter_In.
        by split; [apply list_elem_of_In|]. }
      split.
      - destruct (is_openai_message e); [done|].
        rewrite Hmsg in Hf; [|done]. by apply elem_of_nil in Hf.
      - destruct (List.filter is_farewell (handle t e).2);
          [by apply elem_of_nil in Hf | simpl in Hle; lia]. }
  - revert s. induction evs as [|e evs IH]; intros s; [done|].
    rewrite run_cons. cbn [snd].
    rewrite !List.filter_app, relayed_cons, IH.
    by rewrite (relayed_step JSON_parse), (streamSid_step JSON_parse).
  - revert s. induction evs as [|e evs IH]; intros s; [done|].
    rewrite run_cons. cbn [fst]. simpl foldl.
    by rewrite IH, (streamSid_step JSON_parse).
  - revert s. induction evs as [|e evs IH]; intros s;
      [unfold handoffs; simpl; lia|].
    rewrite run_cons. cbn [snd].
    rewrite List.filter_app, length_app, handoffs_app.
    destruct (farewell_step JSON_parse handle s e Hv) as [Hstep _].
    specialize (IH (handle s e).1). lia.
Qed.

Lemma openai_audio_relayed_with_streamSid_witness :
  let handle := IndexJs.handle parse_json in
  let evs := [ OnOpenAiOpen; audio_delta_frame "a" "1" (Some "I1") None;
               start_frame "S1" None;
               audio_delta_frame "b" "2" (Some "I1") None;
               OnOpenAiMessage
                 (Some (mkAiMsg "response.output_audio.delta" (Some "")
                          None None));
               text_delta_frame
                 (js "{'name':'Jo','email':'a@b.com','problem':'x','time':'3pm','tcp':'foo.com'}");
               start_frame "S2" None;
               audio_delta_frame "c" "3" None None ] in
  let out := (run handle initial evs).2 in
  List.filter is_caller_media out
  = [ ConnectionSendMedia None "a1"; ConnectionSendMedia (Some "S1") "b2";
      ConnectionSendFarewell; ConnectionSendMedia (Some "S2") "c3" ]
  ∧ List.filter (λ a, negb (is_farewell a)) (List.filter is_caller_media out)
    = [ ConnectionSendMedia None "a1"; ConnectionSendMedia (Some "S1") "b2";
        ConnectionSendMedia (Some "S2") "c3" ]
  ∧ streamSid (run handle initial evs).1 = Some "S2"
  ∧ (length (List.filter is_farewell out) ≤ handoffs out)%nat.
Proof.
  intros handle evs out.
  destruct (openai_audio_relayed_with_streamSid parse_json handle
              initial evs (or_introl eq_refl)) as (H1 & H2 & H3 & _).
  split; [vm_compute; reflexivity|].
  exact (conj H1 (conj H2 H3)).
Defined.

(** ** More on the playback bookkeeping *)

Lemma clock_step JSON_parse handle s e :
  is_tracked JSON_parse handle →
  clock_not_back s e →
  (is_start e = true ∧ latestMediaTimestamp (handle s e).1 = 0)
  ∨ (is_start e = false
     ∧ latestMediaTimestamp s ≤ latestMediaTimestamp (handle s e).1).
Proof.
  intros [-> | ->] He; destruct e as [|[msg|]| | |[d|]| |[]|]; open_handlers;
    try (right; split; [done|]; simpl; lia);
    try (right; split; [done|];
         match goal with
         | |- _ ≤ latestMediaTimestamp (?f s).1 =>
             assert (keeps latestMediaTimestamp f) as -> by chain
         end; lia).
  all: unfold tracked_connection_message, clock_not_back, is_start in *;
    destruct (data_media d) as [m|], (data_start d) as [st|];
    destruct (data_event d =? "media")%string eqn:Em;
    destruct (data_event d =? "start")%string eqn:Es;
    try (apply String.eqb_eq in Em; apply String.eqb_eq in Es; congruence);
    simpl; try (by left); right; (split; [done|]);
    try (specialize (He eq_refl)); step_cases; lia.
Qed.

(** X4.  In the two playback-tracking variants, as long as the media
    timestamps the caller side reports never decrease within a stream, the
    cumulative caller-audio timestamp is never negative, and between two
    [start] frames it never decreases. *)
Theorem caller_clock_monotone (JSON_parse : string → option json)
    (handle : Session → Event → Session * list Action)
    (s : Session) (evs : list Event) :
  is_tracked JSON_parse handle →
  monotone_media handle s evs →
  0 ≤ latestMediaTimestamp s →
  0 ≤ latestMediaTimestamp (run handle s evs).1
  ∧ (Forall (λ e, is_start e = false) evs →
     latestMediaTimestamp s ≤ latestMediaTimestamp (run handle s evs).1).
Proof.
  intros Ht. revert s. induction evs as [|e evs IH]; intros s Hm H0.
  - split; [done | intros _; simpl; lia].
  - destruct Hm as [He Hm]. rewrite run_cons; simpl fst.
    destruct (clock_step JSON_parse handle s e Ht He) as [[Hs Hz] | [Hs Hle]].
    + destruct (IH _ Hm) as [IH0 _]; [lia|]. split; [done|].
      intros Hall. apply Forall_cons in Hall as [Hns _]. congruence.
    + destruct (IH _ Hm) as [IH0 IH1]; [lia|]. split; [done|].
      intros Hall. apply Forall_cons in Hall as [_ Hall].
      specialize (IH1 Hall). lia.
Qed.

Lemma caller_clock_monotone_witness :
  let handle := Part001.handle parse_json in
  let evs := [ media_frame 20 "AAAA";
               audio_delta_frame "x" "yz" (Some "I1") None;
               media_frame 20 "BBBB"; media_frame 60 "CCCC" ] in
  0 ≤ latestMediaTimestamp (run handle initial evs).1
  ∧ (Forall (λ e, is_start e = false) evs →
     latestMediaTimestamp initial
     ≤ latestMediaTimestamp (run handle initial evs).1).
Proof.
  intros handle evs.
  refine (caller_clock_monotone parse_json handle initial evs
            (or_introl eq_refl) _ _).
  - simpl. unfold clock_not_back; simpl. repeat split; intros; lia.
  - simpl. lia.
Defined.

(** What a speech-started frame is to a session whose marker queue is
    empty. *)
Lemma speech_started_empty_queue JSON_parse handle d i c s :
  is_tracked JSON_parse handle →
  markQueue s = [] →
  handle s (speech_started_frame d i c)
  = (s, [ConsoleLog "input_audio_buffer.speech_started"]).
Proof.
  intros Ht Hq. rewrite (tracked_speech_started JSON_parse handle); [|done].
  rewrite speech_started_sends, Hq. simpl. by destruct s.
Qed.

(** X5.  In a session of either playback-tracking variant, a speech-started
    frame is logged and has no other effect: the state is left as it is, so
    the recorded playback start and the active item id survive every
    barge-in. *)
Theorem barge_in_changes_nothing (JSON_parse : string → option json)
    (handle : Session → Event → Session * list Action)
    (evs : list Event) (d i : option string)
    (c : option (list ContentPart)) :
  is_tracked JSON_parse handle →
  let s := (run handle initial evs).1 in
  handle s (speech_started_frame d i c)
  = (s, [ConsoleLog "input_audio_buffer.speech_started"]).
Proof.
  intros Ht s. apply (speech_started_empty_queue JSON_parse); [done|].
  apply (run_queue_safe handle evs); [|done].
  intros e. by apply (tracked_queue_safe JSON_parse).
Qed.

Lemma barge_in_changes_nothing_witness :
  let handle := Part001.handle parse_json in
  let s := (run handle initial barge_in_session).1 in
  handle s (speech_started_frame None None None)
  = (s, [ConsoleLog "input_audio_buffer.speech_started"])
  ∧ responseStartTimestampTwilio s = Some 100
  ∧ lastAssistantItem s = Some "I1".
Proof.
  intros handle s. split; [|by vm_compute].
  exact (barge_in_changes_nothing parse_json handle barge_in_session
           None None None (or_introl eq_refl)).
Defined.

(** With an empty marker queue, a step other than a [start] frame leaves a
    recorded playback start that is not 0 where it is. *)
Lemma start_kept_step JSON_parse handle t e :
  is_tracked JSON_parse handle →
  t ≠ 0 → is_start e = false →
  preserves
    (λ s, markQueue s = [] ∧ responseStartTimestampTwilio s = Some t)
    (λ s, handle s e).
Proof.
  intros Ht Hnz He.
  assert (Htruthy : negb (t =? 0) = true).
  { apply negb_true_iff. by apply Z.eqb_neq. }
  destruct Ht as [-> | ->]; destruct e as [|[msg|]| | |[d|]| |[]|];
    open_handlers; try (by intros s Hs);
    repeat apply preserves_seq;
    intros s [Hq Hs]; autounfold with bridge; rewrite ?Hq, ?Hs; simpl;
    rewrite ?Htruthy; simpl; unfold is_start in He;
    step_cases; rewrite ?Hq, ?Hs; try done; simpl in *;
    try tag_clash.
Qed.

(** X6.  In a session of either playback-tracking variant, a playback start
    that has been recorded and is not 0 stays as it is until the next
    [start] frame: later audio deltas, of the same or of a later utterance,
    and speech-started frames do not move it. *)
Theorem playback_start_kept_until_next_stream
    (JSON_parse : string → option json)
    (handle : Session → Event → Session * list Action)
    (evs1 evs2 : list Event) :
  is_tracked JSON_parse handle →
  let s := (run handle initial evs1).1 in
  truthy_num (responseStartTimestampTwilio s) = true →
  Forall (λ e, is_start e = false) evs2 →
  responseStartTimestampTwilio (run handle s evs2).1
  = responseStartTimestampTwilio s.
Proof.
  intros Ht s Hs Hevs.
  assert (Hq : markQueue s = []).
  { apply (run_queue_safe handle evs1); [|done].
    intros e. by apply (tracked_queue_safe JSON_parse). }
  destruct (responseStartTimestampTwilio s) as [t|] eqn:Hst; [|done].
  assert (Hnz : t ≠ 0).
  { simpl in Hs. apply negb_true_iff in Hs. by apply Z.eqb_neq. }
  clear Hs. revert Hq Hst. generalize s. clear s.
  induction Hevs as [|e evs He Hevs IH]; intros s Hq Hst; [done|].
  rewrite run_cons; simpl fst.
  destruct (start_kept_step JSON_parse handle t e Ht Hnz He s (conj Hq Hst))
    as [Hq' Hst'].
  by apply IH.
Qed.

Lemma playback_start_kept_until_next_stream_witness :
  let handle := IndexJsB.handle in
  let s := (run handle initial barge_in_session).1 in
  let evs2 := [ speech_started_frame None None None;
                media_frame 900 "CCCC";
                audio_delta_frame "n" "ew" (Some "I2") None ] in
  responseStartTimestampTwilio (run handle s evs2).1 = Some 100.
Proof.
  intros handle s evs2.
  refine (playback_start_kept_until_next_stream parse_json handle
            barge_in_session evs2 (or_intror eq_refl) eq_refl _).
  repeat constructor.
Defined.

Lemma item_step JSON_parse handle e :
  is_tracked JSON_parse handle →
  ∀ s, markQueue s = [] →
    lastAssistantItem (handle s e).1 = next_item (lastAssistantItem s) e.
Proof.
  intros [-> | ->]; destruct e as [|[msg|]| | |[d|]| |[]|]; intros s Hq;
    open_handlers; try done; rewrite ?seq_eq;
    autounfold with bridge; simpl; rewrite ?Hq; simpl;
    step_cases; try done; by rewrite ?Hq in *.
Qed.

(** X18.  In a session of either playback-tracking variant the active item
    id is the item id of the last non-empty audio delta that carried one, and
    unset if there has been none: once recorded it is never cleared, neither
    by a [start] frame nor by a barge-in. *)
Theorem active_item_is_last_audio_item (JSON_parse : string → option json)
    (handle : Session → Event → Session * list Action) (evs : list Event) :
  is_tracked JSON_parse handle →
  lastAssistantItem (run handle initial evs).1 = foldl next_item None evs.
Proof.
  intros Ht.
  assert (Hgen : ∀ s, markQueue s = [] →
    lastAssistantItem (run handle s evs).1
    = foldl next_item (lastAssistantItem s) evs).
  { induction evs as [|e evs IH]; intros s Hq; [done|].
    rewrite run_cons. cbn [fst]. simpl foldl.
    rewrite IH, (item_step JSON_parse); [done..|].
    by apply (tracked_queue_safe JSON_parse handle e Ht s). }
  by apply Hgen.
Qed.

Lemma active_item_is_last_audio_item_witness :
  lastAssistantItem
    (run IndexJsB.handle initial
       [ start_frame "S1" None;
         audio_delta_frame "x" "yz" (Some "I1") None;
         audio_delta_frame "x" "yz" None None;
         speech_started_frame None None None;
         start_frame "S2" None ]).1 = Some "I1".
Proof.
  exact (active_item_is_last_audio_item parse_json IndexJsB.handle
           [ start_frame "S1" None;
             audio_delta_frame "x" "yz" (Some "I1") None;
             audio_delta_frame "x" "yz" None None;
             speech_started_frame None None None;
             start_frame "S2" None ] (or_intror eq_refl)).
Defined.

(** ** More on the hand-off *)

(** What either flagged variant does with a well-formed frame of the AI
    session: relay, extract, and, if it looks at the record on this frame and
    the flag is not set and the record is filled, confirm. *)
Lemma flagged_message_step JSON_parse handle completed_only msg s :
  (completed_only = false ∧ handle = IndexJs.handle JSON_parse)
  ∨ (completed_only = true ∧ handle = Part000.handle JSON_parse) →
  let s2 := (extract_text_delta JSON_parse msg s).1 in
  let pre := (relay_audio msg s).2 ++ (extract_text_delta JSON_parse msg s).2 in
  handle s (OnOpenAiMessage (Some msg)) =
  if checks_on completed_only msg && negb (allConfirmed s)
     && allFilled (userData s2)
  then (set_allConfirmed true s2,
        pre ++ [sendToSlack (userData s2); ConnectionSendFarewell;
                SetTimeout connection_close 2000])
  else (s2, pre).
Proof.
  assert (Hrelay : (relay_audio msg s).1 = s).
  { unfold relay_audio. by destruct (audio_delta msg). }
  assert (Hflag : allConfirmed (extract_text_delta JSON_parse msg s).1
                  = allConfirmed s).
  { unfold extract_text_delta. step_cases. }
  intros [[-> ->] | [-> ->]] s2 pre; simpl;
    unfold IndexJs.openai_message, Part000.openai_message;
    rewrite !seq_eq, Hrelay; fold s2;
    unfold IndexJs.check_all_filled, Part000.check_completed,
      confirm_if_filled; subst s2; rewrite Hflag;
    destruct (allConfirmed s); simpl; rewrite ?andb_false_r; simpl;
    rewrite ?app_nil_r, ?andb_true_r; try done.
  - destruct (allFilled _); simpl; subst pre;
      by rewrite ?app_nil_r, <- ?app_assoc.
  - destruct (_ =? _)%string; simpl; [|subst pre; by rewrite app_nil_r].
    destruct (allFilled _); simpl; subst pre;
      by rewrite ?app_nil_r, <- ?app_assoc.
Qed.

Lemma relay_extract_quiet JSON_parse msg s a :
  a ∈ (relay_audio msg s).2 ++ (extract_text_delta JSON_parse msg s).2 →
  is_caller_media a || is_console a = true.
Proof.
  unfold relay_audio, extract_text_delta. intros Ha.
  step_cases; simpl in Ha; list_cases Ha.
Qed.

(** A frame on which a flagged variant hands nothing off. *)
Lemma flagged_other_step JSON_parse handle s e :
  is_flagged JSON_parse handle →
  is_openai_message e = false ∨ e = OnOpenAiMessage None →
  allConfirmed (handle s e).1 = allConfirmed s
  ∧ userData (handle s e).1 = userData s
  ∧ (ConnectionSendFarewell ∉ (handle s e).2)
  ∧ (∀ ms, SetTimeout connection_close ms ∉ (handle s e).2)
  ∧ (e ≠ OnConnectionClose → handoffs (handle s e).2 = 0%nat).
Proof.
  intros [-> | ->] He; destruct e as [|[msg|]| | |[d|]| |[]|];
    try (by destruct He); open_handlers; rewrite ?seq_eq;
    unfold handoffs, sendToSlack; step_cases;
    (split_and!; [done | done | intros Ha; list_cases Ha
                 | intros ms Ha; list_cases Ha
                 | try done]).
Qed.

Lemma relay_extract_plain JSON_parse msg s :
  let pre := (relay_audio msg s).2 ++ (extract_text_delta JSON_parse msg s).2 in
  List.filter is_slack pre = []
  ∧ (ConnectionSendFarewell ∉ pre)
  ∧ (∀ cb ms, SetTimeout cb ms ∉ pre).
Proof.
  unfold relay_audio, extract_text_delta.
  step_cases; (split_and!; [done | intros Ha; list_cases Ha
                           | intros cb ms Ha; list_cases Ha]).
Qed.

Lemma flagged_cases JSON_parse handle :
  is_flagged JSON_parse handle →
  ∃ completed_only,
    (completed_only = false ∧ handle = IndexJs.handle JSON_parse)
    ∨ (completed_only = true ∧ handle = Part000.handle JSON_parse).
Proof. intros [-> | ->]; [exists false | exists true]; auto. Qed.

Lemma hangup_or_not e : e = OnConnectionClose ∨ e ≠ OnConnectionClose.
Proof. destruct e; auto. Qed.

Lemma event_cases e :
  (∃ msg, e = OnOpenAiMessage (Some msg))
  ∨ (is_openai_message e = false ∨ e = OnOpenAiMessage None).
Proof. destruct e as [|[msg|]| | | | | |]; eauto. Qed.

(** X7.  In the two variants with the completion flag, the farewell and the
    scheduled close go together and only with a completion: a step sends the
    farewell exactly when it schedules the close, 2000 ms ahead; it then is
    not the hang-up, the flag was not set before and is set after, the record
    is filled, and the step hands this record off once.  Any step other than
    the hang-up that hands off is such a step. *)
Theorem completion_effects_go_together (JSON_parse : string → option json)
    (handle : Session → Event → Session * list Action)
    (s : Session) (e : Event) :
  is_flagged JSON_parse handle →
  let r := handle s e in
  (ConnectionSendFarewell ∈ r.2 ↔ SetTimeout connection_close 2000 ∈ r.2)
  ∧ (∀ ms, SetTimeout connection_close ms ∈ r.2 → ms = 2000)
  ∧ (ConnectionSendFarewell ∈ r.2 →
       e ≠ OnConnectionClose
       ∧ allConfirmed s = false ∧ allConfirmed r.1 = true
       ∧ allFilled (userData r.1) = true
       ∧ List.filter is_slack r.2 = [sendToSlack (userData r.1)])
  ∧ (e ≠ OnConnectionClose → handoffs r.2 ≠ 0%nat →
       ConnectionSendFarewell ∈ r.2).
Proof.
  intros Hf r. subst r. destruct (event_cases e) as [[msg ->] | He].
  - destruct (flagged_cases JSON_parse handle Hf) as [co Hco].
    rewrite (flagged_message_step JSON_parse handle co msg s Hco).
    destruct (relay_extract_plain JSON_parse msg s) as (Hs & Hfw & Hto).
    destruct (checks_on co msg && negb (allConfirmed s)
              && allFilled _) eqn:Hfire; simpl.
    + apply andb_prop in Hfire as [[_ Hn]%andb_prop Hfill].
      apply negb_true_iff in Hn.
      assert (Hin : ∀ (pre : list Action) a b c,
                b ∈ pre ++ [a; b; c] ∧ c ∈ pre ++ [a; b; c]).
      { intros pre a b c. split; apply elem_of_app; right.
        - apply list_elem_of_further, list_elem_of_here.
        - do 2 apply list_elem_of_further. apply list_elem_of_here. }
      split_and!.
      * split; intros _; apply Hin.
      * intros ms [Ha | Ha]%elem_of_app; [by apply Hto in Ha|].
        unfold sendToSlack in Ha.
        apply elem_of_cons in Ha as [Ha | Ha]; [discriminate|].
        apply elem_of_cons in Ha as [Ha | Ha]; [discriminate|].
        apply list_elem_of_singleton in Ha. congruence.
      * intros _. split_and!; try done.
        by rewrite List.filter_app, Hs.
      * intros _ _. apply Hin.
    + split_and!; try done.
      * split; intros Ha; [by apply Hfw in Ha | by apply Hto in Ha].
      * intros ms Ha. by apply Hto in Ha.
      * unfold handoffs. by rewrite Hs.
  - destruct (flagged_other_step JSON_parse handle s e Hf He)
      as (_ & _ & Hfw & Hto & Hh).
    split_and!; try done.
    + split; intros Ha; [done | by apply Hto in Ha].
    + intros ms Ha. by apply Hto in Ha.
    + intros Hne Hn. by rewrite Hh in Hn.
Qed.

Lemma completion_effects_go_together_witness :
  let handle := IndexJs.handle parse_json in
  let s := (run handle initial
              [ text_delta_frame (js "{'name':'Jo'}");
                text_delta_frame (js "{'email':'a@b.com','problem':'x'}") ]).1 in
  let r := handle s (text_delta_frame (js "{'time':'3pm','tcp':'foo.com'}")) in
  ConnectionSendFarewell ∈ r.2
  ∧ SetTimeout connection_close 2000 ∈ r.2
  ∧ allConfirmed s = false ∧ allConfirmed r.1 = true
  ∧ List.filter is_slack r.2 = [sendToSlack (userData r.1)].
Proof.
  intros handle s r.
  destruct (completion_effects_go_together parse_json handle s
              (text_delta_frame (js "{'time':'3pm','tcp':'foo.com'}"))
              (or_introl eq_refl)) as (H1 & _ & H3 & H4).
  assert (Hfw : ConnectionSendFarewell ∈ r.2).
  { apply H4; [discriminate | by vm_compute]. }
  destruct (H3 Hfw) as (_ & Ha & Hb & _ & Hc).
  exact (conj Hfw (conj (proj1 H1 Hfw) (conj Ha (conj Hb Hc)))).
Defined.

(** What a flagged variant hands off is the record as the step leaves it. *)
Lemma slack_is_current_record JSON_parse handle s e a :
  is_flagged JSON_parse handle →
  a ∈ (handle s e).2 → is_slack a = true →
  a = sendToSlack (userData (handle s e).1)
  ∧ (e ≠ OnConnectionClose → allFilled (userData (handle s e).1) = true).
Proof.
  intros Hf Ha Hs. destruct (event_cases e) as [[msg ->] | He].
  - destruct (flagged_cases JSON_parse handle Hf) as [co Hco].
    rewrite (flagged_message_step JSON_parse handle co msg s Hco) in *.
    destruct (relay_extract_plain JSON_parse msg s) as (Hpre & _ & _).
    assert (Hno : ∀ b, b ∈ (relay_audio msg s).2
                         ++ (extract_text_delta JSON_parse msg s).2 →
                       is_slack b = false).
    { intros b Hb. apply (relay_extract_quiet JSON_parse) in Hb.
      by destruct b. }
    destruct (checks_on co msg && negb (allConfirmed s)
              && allFilled _) eqn:Hfire; simpl in *.
    + apply andb_prop in Hfire as [_ Hfill].
      apply elem_of_app in Ha as [Ha | Ha];
        [apply Hno in Ha; congruence|].
      split; [|done].
      apply elem_of_cons in Ha as [-> | Ha]; [done|].
      apply elem_of_cons in Ha as [-> | Ha]; [done|].
      by apply list_elem_of_singleton in Ha as ->.
    + apply Hno in Ha. congruence.
  - destruct (hangup_or_not e) as [-> | Hne].
    + split; [|done]. destruct Hf as [-> | ->].
      * rewrite hangup_handoff in Ha.
        assert (userData (IndexJs.handle JSON_parse s OnConnectionClose).1
                = userData s) as ->.
        { by apply (flagged_other_step JSON_parse (IndexJs.handle JSON_parse)
                      s OnConnectionClose); [left | left]. }
        destruct (negb _ && _); [|destruct (is_open _)];
          simpl in Ha; list_cases Ha.
      * simpl in Ha. unfold Part000.connection_closed in Ha.
        rewrite seq_eq in Ha. unfold close_openai, emit in Ha. simpl in Ha.
        destruct (is_open (readyState s)); simpl in Ha; list_cases Ha.
    + destruct (flagged_other_step JSON_parse handle s e Hf He)
        as (_ & _ & _ & _ & Hh).
      specialize (Hh Hne). unfold handoffs in Hh.
      apply list_elem_of_In in Ha.
      assert (In a (List.filter is_slack (handle s e).2)) as Hin
        by by apply List.filter_In.
      destruct (List.filter is_slack (handle s e).2); [done | discriminate].
Qed.

Lemma posted_lookup JSON_parse handle evs k :
  is_flagged JSON_parse handle → k ∈ FIELDS →
  userData (run handle initial evs).1 !! k
  = posted (extracted JSON_parse evs) k.
Proof.
  intros Hf Hk. rewrite (userData_run JSON_parse); [|done].
  simpl. rewrite lookup_foldl_spread, (initial_userData_fields k Hk).
  unfold posted. by destruct (last_write _ k).
Qed.

(** X8.  In the two variants with the completion flag, whatever a session
    hands off, at completion or at the hang-up, carries for each of the five
    fields the value that the last parsed fragment carrying the field gave
    it, and [null] if no fragment carried it; keys other than the five never
    reach the sink.  A hand-off that is not made by the hang-up carries five
    truthy values. *)
Theorem handoff_posts_last_written_fields (JSON_parse : string → option json)
    (handle : Session → Event → Session * list Action)
    (evs : list Event) (e : Event) (a : Action) :
  is_flagged JSON_parse handle →
  let s := (run handle initial evs).1 in
  let frs := extracted JSON_parse (evs ++ [e]) in
  a ∈ (handle s e).2 → is_slack a = true →
  a = SendToSlack (posted frs "name") (posted frs "email")
        (posted frs "problem") (posted frs "time") (posted frs "tcp")
  ∧ (e ≠ OnConnectionClose →
     ∀ k, k ∈ FIELDS → ∃ v, posted frs k = Some v ∧ truthy v = true).
Proof.
  intros Hf s frs Ha Hs.
  destruct (slack_is_current_record JSON_parse handle s e a Hf Ha Hs)
    as [-> Hfill].
  assert (Hu : userData (handle s e).1
               = userData (run handle initial (evs ++ [e])).1).
  { by rewrite run_snoc. }
  assert (Hk : ∀ k, k ∈ FIELDS →
                 userData (handle s e).1 !! k = posted frs k).
  { intros k Hin. rewrite Hu. by apply posted_lookup. }
  split.
  - unfold sendToSlack. rewrite !Hk; [done|unfold FIELDS; set_solver..].
  - intros Hne k Hin. specialize (Hfill Hne).
    rewrite allFilled_spec in Hfill. exists (default JNull (last_write frs k)).
    split; [done|]. apply (Hfill k). by rewrite Hk.
Qed.

Lemma handoff_posts_last_written_fields_witness :
  let handle := IndexJs.handle parse_json in
  let evs := [ text_delta_frame (js "{'name':'Jo','foo':'bar'}");
               text_delta_frame (js "{'name':'Joe','email':null}") ] in
  let a := SendToSlack (Some (JStr "Joe")) (Some JNull) (Some JNull)
             (Some JNull) (Some JNull) in
  a ∈ (handle (run handle initial evs).1 OnConnectionClose).2
  ∧ a = SendToSlack
          (posted (extracted parse_json (evs ++ [OnConnectionClose])) "name")
          (posted (extracted parse_json (evs ++ [OnConnectionClose])) "email")
          (posted (extracted parse_json (evs ++ [OnConnectionClose]))
             "problem")
          (posted (extracted parse_json (evs ++ [OnConnectionClose])) "time")
          (posted (extracted parse_json (evs ++ [OnConnectionClose])) "tcp").
Proof.
  intros handle evs a.
  assert (Hin : a ∈ (handle (run handle initial evs).1 OnConnectionClose).2).
  { vm_compute. do 2 apply list_elem_of_further. apply list_elem_of_here. }
  split; [exact Hin|].
  exact (proj1 (handoff_posts_last_written_fields parse_json handle evs
                  OnConnectionClose a (or_introl eq_refl) Hin eq_refl)).
Defined.

(** A step of a flagged variant, other than the hang-up, hands off once if
    it sets the flag and not at all otherwise. *)
Lemma flag_count_step JSON_parse handle s e :
  is_flagged JSON_parse handle →
  e ≠ OnConnectionClose ∨ handle = Part000.handle JSON_parse →
  (handoffs (handle s e).2 + flag_count s)%nat = flag_count (handle s e).1.
Proof.
  intros Hf He. destruct (event_cases e) as [[msg ->] | Hother].
  - destruct (flagged_cases JSON_parse handle Hf) as [co Hco].
    rewrite (flagged_message_step JSON_parse handle co msg s Hco).
    destruct (relay_extract_plain JSON_parse msg s) as (Hpre & _ & _).
    assert (Hflag : allConfirmed (extract_text_delta JSON_parse msg s).1
                    = allConfirmed s).
    { unfold extract_text_delta. step_cases. }
    destruct (checks_on co msg && negb (allConfirmed s)
              && allFilled _) eqn:Hfire; simpl.
    + apply andb_prop in Hfire as [[_ Hn]%andb_prop _].
      apply negb_true_iff in Hn. unfold handoffs, flag_count.
      by rewrite List.filter_app, Hpre, Hn.
    + unfold handoffs, flag_count. by rewrite Hpre, Hflag.
  - destruct (flagged_other_step JSON_parse handle s e Hf Hother)
      as (Hfl & _ & _ & _ & Hh).
    unfold flag_count. rewrite Hfl.
    destruct He as [He | ->]; [by rewrite Hh|].
    destruct (hangup_or_not e) as [-> | Hne];
      [|by rewrite Hh].
    simpl. unfold Part000.connection_closed. rewrite seq_eq.
    unfold close_openai, handoffs, emit. simpl.
    by destruct (is_open (readyState s)).
Qed.

Lemma flag_count_run JSON_parse handle s evs :
  is_flagged JSON_parse handle →
  Forall (λ e, e ≠ OnConnectionClose) evs
  ∨ handle = Part000.handle JSON_parse →
  (handoffs (run handle s evs).2 + flag_count s)%nat
  = flag_count (run handle s evs).1.
Proof.
  intros Hf. revert s. induction evs as [|e evs IH]; intros s Hevs; [done|].
  rewrite run_cons; simpl fst; simpl snd. rewrite handoffs_app.
  rewrite <- IH, <- (flag_count_step JSON_parse handle s e Hf); [lia|..].
  - destruct Hevs as [Hevs | ->]; [|by right].
    left. by apply Forall_cons in Hevs as [? _].
  - destruct Hevs as [Hevs | ->]; [|by right].
    left. by apply Forall_cons in Hevs as [_ ?].
Qed.

(** X9.  In part_000 the number of hand-offs of a session, whatever its
    events and their order, is 1 if the completion flag is set at its end
    and 0 if not; so no session hands off twice, and none hands off without
    setting the flag. *)
Theorem part000_hands_off_once_with_the_flag
    (JSON_parse : string → option json) (evs : list Event) :
  let r := run (Part000.handle JSON_parse) initial evs in
  handoffs r.2 = flag_count r.1 ∧ (handoffs r.2 ≤ 1)%nat.
Proof.
  intros r.
  pose proof (flag_count_run JSON_parse (Part000.handle JSON_parse) initial
                evs (or_intror eq_refl) (or_intror eq_refl)) as H.
  fold r in H. unfold flag_count in *. simpl in H.
  destruct (allConfirmed r.1); lia.
Qed.

(** X10.  In index.js (first document), a session that ends with the hang-up
    hands off exactly once if, when the caller hangs up, the flag is set or
    some value of the record is truthy, and not at all otherwise; up to the
    hang-up it has handed off once if the flag is set and not at all if it is
    not. *)
Theorem index_hands_off_once_or_never (JSON_parse : string → option json)
    (evs : list Event) :
  Forall (λ e, e ≠ OnConnectionClose) evs →
  let handle := IndexJs.handle JSON_parse in
  let r := run handle initial evs in
  handoffs r.2 = flag_count r.1
  ∧ handoffs (run handle initial (evs ++ [OnConnectionClose])).2
    = (if allConfirmed r.1 || some_truthy (userData r.1) then 1 else 0)%nat.
Proof.
  intros Hevs handle r. subst handle r.
  pose proof (flag_count_run JSON_parse (IndexJs.handle JSON_parse) initial
                evs (or_introl eq_refl) (or_introl Hevs)) as H.
  rewrite run_snoc. cbn [snd]. rewrite handoffs_app, hangup_handoff.
  revert H. generalize (run (IndexJs.handle JSON_parse) initial evs).
  intros [s out] H. simpl in *. unfold flag_count, handoffs in *. simpl in H.
  destruct (allConfirmed s), (some_truthy _); simpl in *;
    try destruct (is_open _); simpl in *; lia.
Qed.

Lemma index_hands_off_once_or_never_witness :
  let handle := IndexJs.handle parse_json in
  let evs := [ OnOpenAiOpen; start_frame "S1" None;
               text_delta_frame (js "{'name':'Jo'}") ] in
  let r := run handle initial evs in
  handoffs r.2 = flag_count r.1
  ∧ handoffs (run handle initial (evs ++ [OnConnectionClose])).2
    = (if allConfirmed r.1 || some_truthy (userData r.1) then 1 else 0)%nat.
Proof.
  intros handle evs.
  refine (index_hands_off_once_or_never parse_json evs _).
  repeat constructor; discriminate.
Defined.

(** X11.  In index.js (first document) a filled record never waits: in
    every state a session reaches, if every value of the record is truthy
    then the completion flag is set. *)
Theorem index_filled_record_is_confirmed (JSON_parse : string → option json)
    (evs : list Event) :
  let s := (run (IndexJs.handle JSON_parse) initial evs).1 in
  allFilled (userData s) = true → allConfirmed s = true.
Proof.
  assert (Hstep : ∀ s e,
    (allFilled (userData s) = true → allConfirmed s = true) →
    allFilled (userData (IndexJs.handle JSON_parse s e).1) = true →
    allConfirmed (IndexJs.handle JSON_parse s e).1 = true).
  { intros s e Hinv. destruct (event_cases e) as [[msg ->] | Hother].
    - rewrite (flagged_message_step JSON_parse _ false msg s); [|by left].
      assert (Hflag : allConfirmed (extract_text_delta JSON_parse msg s).1
                      = allConfirmed s).
      { unfold extract_text_delta. step_cases. }
      simpl checks_on. destruct (allConfirmed s) eqn:Hc; simpl;
        [by intros _|].
      destruct (allFilled (userData (extract_text_delta JSON_parse msg s).1))
        eqn:Hfill; simpl; [by intros _|].
      intros; congruence.
    - destruct (flagged_other_step JSON_parse _ s e (or_introl eq_refl) Hother)
        as (-> & -> & _). done. }
  intros s. subst s. induction evs as [|e evs IH] using rev_ind.
  - by vm_compute.
  - rewrite run_snoc; simpl fst. by apply Hstep.
Qed.

Lemma index_filled_record_is_confirmed_witness :
  let s := (run (IndexJs.handle parse_json) initial three_fragments).1 in
  allFilled (userData s) = true ∧ allConfirmed s = true.
Proof.
  intros s. assert (H : allFilled (userData s) = true) by by vm_compute.
  exact (conj H (index_filled_record_is_confirmed parse_json three_fragments
                   H)).
Defined.

(** X12.  In part_000 the hand-off waits for the end of a response: a step
    hands off only if its event is a [response.completed] frame, so a text
    delta that fills the record hands nothing off; and a
    [response.completed] frame that finds the flag not set and the record
    filled hands the record off. *)
Theorem part000_hands_off_on_completed_only
    (JSON_parse : string → option json) (s : Session) (e : Event)
    (d i : option string) (c : option (list ContentPart)) :
  let handle := Part000.handle JSON_parse in
  (handoffs (handle s e).2 ≠ 0%nat →
     ∃ msg, e = OnOpenAiMessage (Some msg)
            ∧ msg_type msg = "response.completed")
  ∧ (allConfirmed s = false → allFilled (userData s) = true →
     List.filter is_slack
       (handle s (OnOpenAiMessage
                    (Some (mkAiMsg "response.completed" d i c)))).2
     = [sendToSlack (userData s)]).
Proof.
  intros handle. split.
  - intros Hn. destruct (event_cases e) as [[msg ->] | Hother].
    + exists msg. split; [done|]. revert Hn. subst handle.
      rewrite (flagged_message_step JSON_parse _ true msg s); [|by right].
      destruct (relay_extract_plain JSON_parse msg s) as (Hpre & _ & _).
      simpl checks_on.
      destruct (msg_type msg =? "response.completed")%string eqn:Ht.
      * intros _. by apply String.eqb_eq.
      * simpl. unfold handoffs. by rewrite Hpre.
    + pose proof (flag_count_step JSON_parse handle s e (or_intror eq_refl)
                    (or_intror eq_refl)) as Hc.
      destruct (flagged_other_step JSON_parse handle s e (or_intror eq_refl)
                  Hother) as (Hfl & _).
      unfold flag_count in Hc. rewrite Hfl in Hc.
      destruct (allConfirmed s); lia.
  - intros Hc Hfill. subst handle.
    rewrite (flagged_message_step JSON_parse _ true); [|by right].
    unfold extract_text_delta, relay_audio, audio_delta; simpl.
    by rewrite Hc, Hfill.
Qed.

Lemma part000_hands_off_on_completed_only_witness :
  let handle := Part000.handle parse_json in
  let s := (run handle initial three_fragments).1 in
  allConfirmed s = false ∧ allFilled (userData s) = true
  ∧ handoffs (run handle initial three_fragments).2 = 0%nat
  ∧ List.filter is_slack (handle s (completed_frame None)).2
    = [sendToSlack (userData s)].
Proof.
  intros handle s.
  assert (Hc : allConfirmed s = false) by by vm_compute.
  assert (Hf : allFilled (userData s) = true) by by vm_compute.
  split_and!; [done | done | by vm_compute |].
  exact (proj2 (part000_hands_off_on_completed_only parse_json s
                  OnOpenAiOpen None None None) Hc Hf).
Defined.

(** ** part_001: the ways a completed response is handled *)

Lemma set_userData_same s : set_userData (userData s) s = s.
Proof. by destruct s. Qed.

Lemma part001_completed_step JSON_parse s content :
  Part001.handle JSON_parse s (completed_frame content)
  = Part001.completed_handoff JSON_parse
      (mkAiMsg "response.completed" None None content) s.
Proof.
  simpl. unfold Part001.openai_message. rewrite !seq_eq.
  unfold log_event, relay_audio_tracked, speech_started, audio_delta. simpl.
  rewrite app_nil_r. by destruct (Part001.completed_handoff _ _ s).
Qed.

(** X13.  In part_001, a [response.completed] frame without content does
    nothing.  One whose content does not parse logs an error and leaves the
    record alone, with no hand-off, no farewell and no close.  One whose
    content parses is merged into the record, and the record is handed off,
    the farewell sent and the close scheduled, whatever the state: filled or
    not, handed off before or not.  A content that is an empty list, or whose
    first part has no text or an empty one, stands for the empty object: the
    record is handed off as it is. *)
Theorem part001_completion_branches (JSON_parse : string → option json)
    (s : Session) (parts : list ContentPart) :
  let handle := Part001.handle JSON_parse in
  handle s (completed_frame None) = (s, [])
  ∧ (JSON_parse (Part001.content_text parts) = None →
     handle s (completed_frame (Some parts))
     = (s, [ConsoleError "Error parsing AI JSON:"]))
  ∧ (∀ aiContent,
       JSON_parse (Part001.content_text parts) = Some aiContent →
       handle s (completed_frame (Some parts))
       = (set_userData (spread (userData s) aiContent) s,
          [sendToSlack (spread (userData s) aiContent);
           ConnectionSendFarewell; SetTimeout connection_close 2000]))
  ∧ (JSON_parse "{}" = Some (JObj ∅) →
     parts = []
     ∨ (∃ p rest, parts = p :: rest ∧ truthy_str (part_text p) = false) →
     handle s (completed_frame (Some parts))
     = (s, [sendToSlack (userData s); ConnectionSendFarewell;
            SetTimeout connection_close 2000])).
Proof.
  intros handle. subst handle. rewrite !part001_completed_step.
  unfold Part001.completed_handoff. simpl. split_and!.
  - done.
  - by intros ->.
  - by intros aiContent ->.
  - intros Hempty Hparts.
    assert (Part001.content_text parts = "{}") as ->.
    { destruct Hparts as [-> | (p & rest & -> & Hp)]; [done|].
      simpl. by rewrite Hp. }
    rewrite Hempty. unfold spread. simpl.
    by rewrite (left_id_L ∅ (∪)), set_userData_same.
Qed.

Lemma part001_completion_branches_witness :
  let handle := Part001.handle parse_json in
  handle initial (completed_frame (Some [mkPart (Some (js "{'name':"))]))
  = (initial, [ConsoleError "Error parsing AI JSON:"])
  ∧ (handle initial
       (completed_frame (Some [mkPart (Some (js "{'name':'Jo'}"))]))).2
    = [SendToSlack (Some (JStr "Jo")) (Some JNull) (Some JNull) (Some JNull)
         (Some JNull);
       ConnectionSendFarewell; SetTimeout connection_close 2000]
  ∧ handle initial (completed_frame (Some [mkPart None]))
    = (initial,
       [SendToSlack (Some JNull) (Some JNull) (Some JNull) (Some JNull)
          (Some JNull);
        ConnectionSendFarewell; SetTimeout connection_close 2000]).
Proof.
  intros handle. split_and!.
  - exact (proj1 (proj2 (part001_completion_branches parse_json initial
                           [mkPart (Some (js "{'name':"))])) eq_refl).
  - exact (f_equal snd
             (proj1 (proj2 (proj2 (part001_completion_branches parse_json
                                     initial
                                     [mkPart (Some (js "{'name':'Jo'}"))])))
                       (JObj (<["name" := JStr "Jo"]> ∅)) eq_refl)).
  - exact (proj2 (proj2 (proj2 (part001_completion_branches parse_json
                                  initial [mkPart None])))
             eq_refl (or_intror (ex_intro _ (mkPart None)
                        (ex_intro _ [] (conj eq_refl eq_refl))))).
Defined.


(** ** The two streams do not disturb each other's state *)

Lemma record_kept_step JSON_parse handle s e :
  is_variant JSON_parse handle →
  is_openai_message e = false →
  record_of (handle s e).1 = record_of s.
Proof.
  intros Hv He. unfold record_of. open_variant Hv.
  - destruct (flagged_other_step JSON_parse _ s e (or_introl eq_refl)
                (or_introl He)) as (-> & -> & _). done.
  - destruct e as [|[msg|]| | |data| |[]|]; try done; open_handlers;
      rewrite ?seq_eq; step_cases; try done.
  - destruct (flagged_other_step JSON_parse _ s e (or_intror eq_refl)
                (or_introl He)) as (-> & -> & _). done.
  - destruct e as [|[msg|]| | |data| |[]|]; try done; open_handlers;
      rewrite ?seq_eq; step_cases; try done.
Qed.

Lemma record_of_extract JSON_parse msg s :
  record_of (extract_text_delta JSON_parse msg s).1
  = (match extracted_of JSON_parse (OnOpenAiMessage (Some msg)) with
     | Some v => spread (userData s) v
     | None => userData s
     end, allConfirmed s).
Proof.
  unfold record_of. rewrite extract_text_delta_userData. f_equal.
  unfold extract_text_delta. step_cases.
Qed.

(** The record after a frame of the AI session is a function of the record
    before it, whatever the rest of the state. *)
Lemma record_next_step JSON_parse handle data :
  is_variant JSON_parse handle →
  ∃ next, ∀ s,
    record_of (handle s (OnOpenAiMessage data)).1 = next (record_of s).
Proof.
  intros Hv. destruct data as [msg|];
    [|exists id; intros s; open_variant Hv; done].
  open_variant Hv.
  - exists (λ r,
      let u := match extracted_of JSON_parse (OnOpenAiMessage (Some msg)) with
               | Some v => spread r.1 v
               | None => r.1
               end in
      if checks_on false msg && negb r.2 && allFilled u
      then (u, true) else (u, r.2)).
    intros s. rewrite (flagged_message_step JSON_parse _ false); [|by left].
    pose proof (record_of_extract JSON_parse msg s) as Hr.
    unfold record_of in *. injection Hr as Hu Hc. rewrite Hu. simpl.
    destruct (negb (allConfirmed s) && allFilled _); simpl;
      by rewrite ?Hu, ?Hc.
  - exists id. intros s. unfold record_of. open_handlers.
    rewrite !seq_eq. step_cases; try done.
  - exists (λ r,
      let u := match extracted_of JSON_parse (OnOpenAiMessage (Some msg)) with
               | Some v => spread r.1 v
               | None => r.1
               end in
      if checks_on true msg && negb r.2 && allFilled u
      then (u, true) else (u, r.2)).
    intros s. rewrite (flagged_message_step JSON_parse _ true); [|by right].
    pose proof (record_of_extract JSON_parse msg s) as Hr.
    unfold record_of in *. injection Hr as Hu Hc. rewrite Hu. simpl.
    destruct (_ && negb (allConfirmed s) && allFilled _); simpl;
      by rewrite ?Hu, ?Hc.
  - exists (λ r,
      (if String.eqb (msg_type msg) "response.completed" then
         match msg_content msg with
         | Some parts =>
             match JSON_parse (Part001.content_text parts) with
             | Some v => spread r.1 v
             | None => r.1
             end
         | None => r.1
         end
       else r.1, r.2)).
    intros s. unfold record_of. open_handlers.
    rewrite !seq_eq. step_cases; try done.
Qed.

(** X16.  In every variant the structured record and the completion flag
    at the end of a session are those of the session with only the frames of
    the AI session left in: caller frames, the hang-up, socket events and
    timers, however they interleave with the AI frames, do not change
    them. *)
Theorem record_depends_on_openai_frames_only
    (JSON_parse : string → option json)
    (handle : Session → Event → Session * list Action)
    (s : Session) (evs : list Event) :
  is_variant JSON_parse handle →
  record_of (run handle s evs).1
  = record_of (run handle s (List.filter is_openai_message evs)).1.
Proof.
  intros Hv.
  assert (Hgen : ∀ s t, record_of s = record_of t →
    record_of (run handle s evs).1
    = record_of (run handle t (List.filter is_openai_message evs)).1).
  { induction evs as [|e evs IH]; intros s1 t Hst; [done|].
    rewrite run_cons. cbn [fst]. simpl List.filter.
    destruct (is_openai_message e) eqn:He.
    - rewrite run_cons. cbn [fst]. apply IH.
      destruct e as [|data| | | | | |]; try done.
      destruct (record_next_step JSON_parse handle data Hv) as [next Hn].
      by rewrite !Hn, Hst.
    - apply IH. by rewrite (record_kept_step JSON_parse). }
  by apply Hgen.
Qed.

Lemma record_depends_on_openai_frames_only_witness :
  let handle := Part000.handle parse_json in
  let evs := [ OnOpenAiOpen; start_frame "S1" None;
               text_delta_frame (js "{'name':'Jo'}");
               media_frame 20 "AAAA"; OnTimeout connection_close;
               text_delta_frame (js "{'email':'a@b.com'}");
               OnConnectionClose ] in
  record_of (run handle initial evs).1
  = record_of
      (run handle initial
         [ text_delta_frame (js "{'name':'Jo'}");
           text_delta_frame (js "{'email':'a@b.com'}") ]).1.
Proof.
  intros handle evs.
  exact (record_depends_on_openai_frames_only parse_json handle initial evs
           (or_intror (or_intror (or_introl eq_refl)))).
Defined.

(** ** Frames that cannot be used *)

(** X17.  In every variant a frame that cannot be used (one that does not
    parse, from either side; a caller frame whose tag is not [media],
    [start] or [mark]; a [media] or [start] frame without its member) and an
    error event of the AI socket leave the whole state as it is, and do
    nothing but write at most one line to the console: nothing is sent to
    either side, nothing is handed off, nothing is closed. *)
Theorem unusable_frames_are_contained (JSON_parse : string → option json)
    (handle : Session → Event → Session * list Action)
    (s : Session) (e : Event) :
  is_variant JSON_parse handle →
  is_unusable e = true →
  (handle s e).1 = s
  ∧ (length (handle s e).2 ≤ 1)%nat
  ∧ ∀ a, a ∈ (handle s e).2 → is_console a = true.
Proof.
  intros Hv He. unfold is_unusable in He.
  open_variant Hv; destruct e as [|[msg|]| | |[d|]| |[]|]; try done;
    open_handlers; unfold tracked_connection_message,
      IndexJs.connection_message, Part000.connection_message;
    (destruct (data_event d =? "media")%string eqn:Em;
     [destruct (data_media d); [done|]
     |destruct (data_event d =? "start")%string eqn:Es;
      [destruct (data_start d); [done|]
      |destruct (data_event d =? "mark")%string eqn:Ek; [done|]]]) ||
    idtac;
    simpl; try destruct (is_open (readyState s));
    (split_and!; [done | simpl; lia | intros a Ha; list_cases Ha]).
Qed.

Lemma unusable_frames_are_contained_witness :
  let handle := Part001.handle parse_json in
  let s := (run handle initial barge_in_session).1 in
  let e := OnConnectionMessage (Some (mkTwilioMsg "stop" None None)) in
  (handle s e).1 = s
  ∧ (length (handle s e).2 ≤ 1)%nat
  ∧ ∀ a, a ∈ (handle s e).2 → is_console a = true.
Proof.
  intros handle s e.
  exact (unusable_frames_are_contained parse_json handle s e
           (or_intror (or_intror (or_intror eq_refl))) eq_refl).
Defined.

(** ** The guards on the AI socket *)

Lemma waits_cases JSON_parse handle :
  is_variant JSON_parse handle →
  ∃ waits,
    (waits = true ∧ handle = IndexJs.handle JSON_parse)
    ∨ (waits = false
       ∧ (handle = IndexJsB.handle ∨ handle = Part000.handle JSON_parse
          ∨ handle = Part001.handle JSON_parse)).
Proof.
  intros Hv. open_variant Hv; [exists true | exists false..]; auto.
Qed.

(** What a step appends to the AI session. *)
Lemma append_step JSON_parse handle s e :
  is_variant JSON_parse handle →
  List.filter is_append (handle s e).2
  = if is_open (readyState s) then media_of e else [].
Proof.
  intros Hv. open_variant Hv;
    destruct e as [|[msg|]| | |data| |[]|]; open_handlers;
    try (by destruct (is_open (readyState s)));
    try (transitivity (@nil Action); [|by destruct (is_open (readyState s))];
         revert s;
         match goal with
         | |- ∀ s, List.filter is_append (?f s).2 = [] =>
             change (emits_none is_append f)
         end; chain);
    rewrite ?seq_eq; step_cases; try done.
Qed.

(** What a step does to the AI socket. *)
Lemma close_step JSON_parse handle waits s e :
  (waits = true ∧ handle = IndexJs.handle JSON_parse)
  ∨ (waits = false
     ∧ (handle = IndexJsB.handle ∨ handle = Part000.handle JSON_parse
        ∨ handle = Part001.handle JSON_parse)) →
  List.filter is_openai_close (handle s e).2
  = (if tests_socket waits s e && is_open (readyState s)
     then [OpenAiClose] else [])
  ∧ readyState (handle s e).1
    = match e with
      | OnOpenAiOpen => OPEN
      | OnOpenAiClose => CLOSED
      | _ => if tests_socket waits s e && is_open (readyState s)
             then CLOSING else readyState s
      end.
Proof.
  intros [[-> ->] | [-> [-> | [-> | ->]]]];
    destruct e as [|[msg|]| | |data| |[]|]; open_handlers; try done;
    try (split; revert s;
         match goal with
         | |- ∀ s, List.filter is_openai_close (?f s).2 = [] =>
             change (emits_none is_openai_close f)
         | |- ∀ s, readyState (?f s).1 = readyState s =>
             change (keeps readyState f)
         end; chain);
    rewrite ?seq_eq; step_cases; try done.
Qed.

Lemma media_of_sublist (b : bool) e :
  (if b then media_of e else []) `sublist_of` media_of e.
Proof. destruct b; [done | apply sublist_nil_l]. Qed.

(** X1.  In every variant a step sends audio to the AI session only when
    it handles a [media] frame of the caller while the AI socket reports
    that it is open: it then sends the payload of that frame, unchanged, and
    nothing if the socket is in any other state.  So the audio sent over a
    session is a subsequence of the payloads of the caller's [media] frames,
    in arrival order: nothing is made up, repeated or reordered. *)
Theorem caller_audio_forwarded_while_open
    (JSON_parse : string → option json)
    (handle : Session → Event → Session * list Action)
    (s : Session) (e : Event) (evs : list Event) :
  is_variant JSON_parse handle →
  List.filter is_append (handle s e).2
  = (if is_open (readyState s) then media_of e else [])
  ∧ List.filter is_append (run handle s evs).2
    `sublist_of` flat_map media_of evs.
Proof.
  intros Hv. split; [by apply (append_step JSON_parse)|].
  revert s. induction evs as [|e' evs IH]; intros s; [done|].
  rewrite run_cons. cbn [snd flat_map].
  rewrite List.filter_app, (append_step JSON_parse); [|done].
  apply sublist_app; [apply media_of_sublist | apply IH].
Qed.

Lemma caller_audio_forwarded_while_open_witness :
  let handle := Part000.handle parse_json in
  let evs := [ media_frame 0 "AAAA"; OnOpenAiOpen; media_frame 20 "BBBB";
               OnOpenAiMessage None; media_frame 40 "CCCC";
               OnConnectionClose; media_frame 60 "DDDD" ] in
  List.filter is_append (handle initial (media_frame 0 "AAAA")).2 = []
  ∧ List.filter is_append
      (handle (set_readyState OPEN initial) (media_frame 20 "BBBB")).2
    = [OpenAiSendAppend "BBBB"]
  ∧ List.filter is_append (run handle initial evs).2
    `sublist_of` [ OpenAiSendAppend "AAAA"; OpenAiSendAppend "BBBB";
                   OpenAiSendAppend "CCCC"; OpenAiSendAppend "DDDD" ].
Proof.
  intros handle evs.
  pose (Hv := or_intror (or_intror (or_introl eq_refl))
              : is_variant parse_json handle).
  split_and!.
  - exact (proj1 (caller_audio_forwarded_while_open parse_json handle
                    initial (media_frame 0 "AAAA") [] Hv)).
  - exact (proj1 (caller_audio_forwarded_while_open parse_json handle
                    (set_readyState OPEN initial) (media_frame 20 "BBBB") []
                    Hv)).
  - exact (proj2 (caller_audio_forwarded_while_open parse_json handle
                    initial OnOpenAiOpen evs Hv)).
Defined.

Lemma run_app handle s evs1 evs2 :
  run handle s (evs1 ++ evs2) =
  ((run handle (run handle s evs1).1 evs2).1,
   (run handle s evs1).2 ++ (run handle (run handle s evs1).1 evs2).2).
Proof.
  revert s. induction evs1 as [|e evs1 IH]; intros s.
  - simpl. by destruct (run handle s evs2).
  - rewrite <- app_comm_cons, !run_cons, IH. simpl. by rewrite app_assoc.
Qed.

(** As long as the AI socket has not opened, nothing is appended to it and
    nothing closes it. *)
Lemma not_open_run JSON_parse handle s evs :
  is_variant JSON_parse handle →
  is_open (readyState s) = false →
  Forall (λ e, e ≠ OnOpenAiOpen) evs →
  List.filter is_append (run handle s evs).2 = []
  ∧ List.filter is_openai_close (run handle s evs).2 = []
  ∧ is_open (readyState (run handle s evs).1) = false.
Proof.
  intros Hv Hs Hevs. revert s Hs.
  destruct (waits_cases JSON_parse handle Hv) as [waits Hw].
  induction Hevs as [|e evs He Hevs IH]; intros s Hs; [done|].
  rewrite run_cons. cbn [fst snd].
  destruct (close_step JSON_parse handle waits s e Hw) as [Hc Hr].
  rewrite Hs, andb_false_r in Hc, Hr.
  assert (is_open (readyState (handle s e).1) = false) as Hs'.
  { rewrite Hr. by destruct e. }
  destruct (IH _ Hs') as (IH1 & IH2 & IH3).
  rewrite !List.filter_app, IH1, IH2, Hc, (append_step JSON_parse), Hs; done.
Qed.

Lemma same_socket_view_step JSON_parse handle waits s t e :
  (waits = true ∧ handle = IndexJs.handle JSON_parse)
  ∨ (waits = false
     ∧ (handle = IndexJsB.handle ∨ handle = Part000.handle JSON_parse
        ∨ handle = Part001.handle JSON_parse)) →
  same_socket_view waits s t →
  List.filter is_append (handle s e).2 = List.filter is_append (handle t e).2
  ∧ same_socket_view waits (handle s e).1 (handle t e).1.
Proof.
  intros Hw [Hopen Hrec].
  assert (Hv : is_variant JSON_parse handle).
  { unfold is_variant. destruct Hw as [[_ ->] | [_ [-> | [-> | ->]]]]; auto. }
  assert (Htest : tests_socket waits s e = tests_socket waits t e).
  { destruct waits; [|by destruct e].
    specialize (Hrec eq_refl). unfold record_of in Hrec.
    injection Hrec as Hu Hc. destruct e; simpl; try done.
    by rewrite Hu, Hc. }
  split; [by rewrite !(append_step JSON_parse), Hopen|].
  split.
  - destruct (close_step JSON_parse handle waits s e Hw) as [_ ->].
    destruct (close_step JSON_parse handle waits t e Hw) as [_ ->].
    rewrite Htest, Hopen.
    destruct e; try done; by destruct (_ && _).
  - intros Hwaits. specialize (Hrec Hwaits).
    destruct (is_openai_message e) eqn:He.
    + destruct e as [|data| | | | | |]; try done.
      destruct (record_next_step JSON_parse handle data Hv) as [next Hn].
      by rewrite !Hn, Hrec.
    + by rewrite !(record_kept_step JSON_parse).
Qed.

Lemma same_socket_view_run JSON_parse handle waits s t evs :
  (waits = true ∧ handle = IndexJs.handle JSON_parse)
  ∨ (waits = false
     ∧ (handle = IndexJsB.handle ∨ handle = Part000.handle JSON_parse
        ∨ handle = Part001.handle JSON_parse)) →
  same_socket_view waits s t →
  List.filter is_append (run handle s evs).2
  = List.filter is_append (run handle t evs).2.
Proof.
  intros Hw. revert s t. induction evs as [|e evs IH]; intros s t Hst; [done|].
  rewrite !run_cons. cbn [snd]. rewrite !List.filter_app.
  destruct (same_socket_view_step JSON_parse handle waits s t e Hw Hst)
    as [-> Hnext].
  by rewrite (IH _ _ Hnext).
Qed.

Lemma record_kept_run JSON_parse handle s evs :
  is_variant JSON_parse handle →
  Forall (λ e, is_openai_message e = false) evs →
  record_of (run handle s evs).1 = record_of s.
Proof.
  intros Hv Hevs. revert s.
  induction Hevs as [|e evs He Hevs IH]; intros s; [done|].
  rewrite run_cons. cbn [fst].
  by rewrite IH, (record_kept_step JSON_parse).
Qed.

(** X2.  Nothing is buffered: the [media] frames that arrive before the AI
    socket has opened are never sent, not even later.  As long as the socket
    has not opened the session forwards nothing; and it goes on to forward
    exactly what it would have forwarded had the early events never arrived.
    For index.js (first document) the second part supposes that the early
    events hold no frame of the AI session, as the socket has not opened:
    its hang-up handler looks at the record before it tests the socket. *)
Theorem early_audio_is_dropped (JSON_parse : string → option json)
    (handle : Session → Event → Session * list Action)
    (evs1 evs2 : list Event) :
  is_variant JSON_parse handle →
  Forall (λ e, e ≠ OnOpenAiOpen) evs1 →
  List.filter is_append (run handle initial evs1).2 = []
  ∧ ((handle = IndexJs.handle JSON_parse →
      Forall (λ e, is_openai_message e = false) evs1) →
     List.filter is_append (run handle initial (evs1 ++ evs2)).2
     = List.filter is_append (run handle initial evs2).2).
Proof.
  intros Hv Hevs.
  destruct (not_open_run JSON_parse handle initial evs1 Hv eq_refl Hevs)
    as (Hnil & _ & Hclosed).
  split; [done|]. intros Hrec.
  rewrite run_app. cbn [snd]. rewrite List.filter_app, Hnil. cbn [app].
  destruct (waits_cases JSON_parse handle Hv) as [waits Hw].
  apply (same_socket_view_run JSON_parse handle waits); [done|].
  split; [done|]. intros ->.
  destruct Hw as [[_ Hh] | [? _]]; [|done].
  by apply (record_kept_run JSON_parse); [|apply Hrec].
Qed.

Lemma early_audio_is_dropped_witness :
  let handle := IndexJs.handle parse_json in
  let evs1 := [start_frame "S1" None; media_frame 0 "AAAA";
               media_frame 20 "BBBB"] in
  let evs2 := [OnOpenAiOpen; media_frame 40 "CCCC"] in
  List.filter is_append (run handle initial evs1).2 = []
  ∧ List.filter is_append (run handle initial (evs1 ++ evs2)).2
    = List.filter is_append (run handle initial evs2).2.
Proof.
  intros handle evs1 evs2.
  assert (H1 : Forall (λ e, e ≠ OnOpenAiOpen) evs1)
    by (repeat constructor; discriminate).
  destruct (early_audio_is_dropped parse_json handle evs1 evs2
              (or_introl eq_refl) H1) as [Ha Hb].
  split; [exact Ha|]. apply Hb. intros _. repeat constructor.
Defined.

(** Why index.js (first document) needs the supposition: a fragment taken
    in before the open event makes its hang-up handler wait instead of
    closing the AI socket at once, and a [media] frame handled in between
    is forwarded. *)
Example early_fragment_delays_the_close :
  let handle := IndexJs.handle parse_json in
  let evs1 := [text_delta_frame (js "{'name':'Jo'}")] in
  let evs2 := [OnOpenAiOpen; OnConnectionClose; media_frame 40 "CCCC"] in
  List.filter is_append (run handle initial (evs1 ++ evs2)).2
  = [OpenAiSendAppend "CCCC"]
  ∧ List.filter is_append (run handle initial evs2).2 = [].
Proof. vm_compute. done. Qed.

Lemma openai_close_elem (l : list Action) :
  OpenAiClose ∈ l ↔ List.filter is_openai_close l ≠ [].
Proof.
  split.
  - intros Hin Hnil.
    assert (In OpenAiClose (List.filter is_openai_close l)) as Hf.
    { apply List.filter_In. by split; [apply list_elem_of_In|]. }
    by rewrite Hnil in Hf.
  - intros Hne. destruct (List.filter is_openai_close l) as [|a l'] eqn:Hl;
      [done|].
    assert (In a (List.filter is_openai_close l)) as Hf
      by (rewrite Hl; by left).
    apply List.filter_In in Hf as [Hf Ha]. destruct a; try done.
    by apply list_elem_of_In.
Qed.

(** X14.  The test that ends the hang-up handler closes the AI socket
    exactly when the socket is open at the moment the test is run.  The
    three variants whose handler never waits, and index.js (first document)
    when it makes no partial hand-off, run the test in the hang-up step.
    After a partial hand-off index.js runs it only when the handler resumes
    from its wait: the hang-up step itself closes nothing and changes
    nothing, and the resumed step closes the socket exactly when it is open
    by then.  A step that closes the socket is the hang-up or its
    resumption, finds the socket open and leaves it closing; and while the
    socket is not open and does not open again, nothing closes it, so it is
    not closed twice. *)
Theorem hangup_closes_open_socket_once (JSON_parse : string → option json)
    (handle : Session → Event → Session * list Action)
    (s t : Session) (e : Event) (evs : list Event) :
  is_variant JSON_parse handle →
  let r := handle s OnConnectionClose in
  (handoffs r.2 = 0%nat → (OpenAiClose ∈ r.2 ↔ readyState s = OPEN))
  ∧ (handoffs r.2 ≠ 0%nat →
     handle = IndexJs.handle JSON_parse
     ∧ (OpenAiClose ∉ r.2) ∧ r.1 = s
     ∧ (OpenAiClose ∈ (handle t OnHangupResumed).2 ↔ readyState t = OPEN))
  ∧ (OpenAiClose ∈ (handle s e).2 →
     (e = OnConnectionClose ∨ e = OnHangupResumed)
     ∧ readyState s = OPEN ∧ readyState (handle s e).1 = CLOSING)
  ∧ (readyState s ≠ OPEN → Forall (λ e, e ≠ OnOpenAiOpen) evs →
     List.filter is_openai_close (run handle s evs).2 = []).
Proof.
  intros Hv r. subst r.
  destruct (waits_cases JSON_parse handle Hv) as [waits Hw].
  assert (Hopen : ∀ u, is_open (readyState u) = true ↔ readyState u = OPEN).
  { intros u. by destruct (readyState u). }
  split_and!.
  - intros Hnone. rewrite openai_close_elem, <- Hopen.
    destruct (close_step JSON_parse handle waits s OnConnectionClose Hw)
      as [-> _].
    assert (tests_socket waits s OnConnectionClose = true) as ->.
    { destruct Hw as [[-> ->] | [-> _]]; [|done].
      rewrite hangup_handoff, handoffs_app in Hnone. simpl.
      destruct (negb (allConfirmed s) && some_truthy (userData s));
        [by vm_compute in Hnone | done]. }
    simpl. by destruct (is_open (readyState s)).
  - intros Hsome.
    destruct Hw as [[-> ->] | [-> Hh]].
    2:{ exfalso. apply Hsome. unfold handoffs.
        destruct Hh as [-> | [-> | ->]]; open_handlers;
          rewrite ?seq_eq; step_cases. }
    assert (negb (allConfirmed s) && some_truthy (userData s) = true) as Hp.
    { rewrite hangup_handoff, handoffs_app in Hsome.
      destruct (negb (allConfirmed s) && some_truthy (userData s)); [done|].
      exfalso. apply Hsome. unfold handoffs.
      by destruct (is_open (readyState s)). }
    split_and!.
    + done.
    + rewrite hangup_handoff, Hp. unfold sendToSlack.
      intros Hin. list_cases Hin.
    + simpl. unfold IndexJs.connection_closed, IndexJs.partial_handoff,
        IndexJs.close_unless_awaiting.
      rewrite !seq_eq. simpl. rewrite Hp. simpl. by rewrite Hp.
    + rewrite openai_close_elem, <- Hopen.
      destruct (close_step JSON_parse (IndexJs.handle JSON_parse) true t
                  OnHangupResumed (or_introl (conj eq_refl eq_refl)))
        as [-> _].
      simpl. by destruct (is_open (readyState t)).
  - rewrite openai_close_elem, <- Hopen.
    destruct (close_step JSON_parse handle waits s e Hw) as [-> ->].
    destruct (tests_socket waits s e) eqn:Ht, (is_open (readyState s));
      simpl; try done.
    intros _. by destruct e; simpl in *; auto.
  - intros Hs Hevs.
    apply (not_open_run JSON_parse); [done | | done].
    by destruct (readyState s).
Qed.

Lemma hangup_closes_open_socket_once_witness :
  let handle := IndexJs.handle parse_json in
  let s := (run handle initial
              [OnOpenAiOpen; text_delta_frame (js "{'name':'Jo'}")]).1 in
  let t := (handle s OnOpenAiClose).1 in
  (OpenAiClose ∉ (handle s OnConnectionClose).2)
  ∧ (handle s OnConnectionClose).1 = s
  ∧ (OpenAiClose ∉ (handle t OnHangupResumed).2)
  ∧ OpenAiClose ∈ (handle s OnHangupResumed).2
  ∧ readyState (handle s OnHangupResumed).1 = CLOSING.
Proof.
  intros handle s t.
  pose (Hv := or_introl eq_refl : is_variant parse_json handle).
  assert (Hsome : handoffs (handle s OnConnectionClose).2 ≠ 0%nat)
    by (vm_compute; discriminate).
  destruct (hangup_closes_open_socket_once parse_json handle s t
              OnHangupResumed [] Hv) as (_ & Hwait & Hclose & _).
  destruct (Hwait Hsome) as (_ & Hno & Hsame & Hlate).
  destruct (hangup_closes_open_socket_once parse_json handle s s
              OnHangupResumed [] Hv) as (_ & Hwait' & _).
  destruct (Hwait' Hsome) as (_ & _ & _ & Hnow).
  assert (Hin : OpenAiClose ∈ (handle s OnHangupResumed).2)
    by (apply Hnow; vm_compute; reflexivity).
  split_and!.
  - exact Hno.
  - exact Hsame.
  - intros Hin'. apply Hlate in Hin'. vm_compute in Hin'. discriminate.
  - exact Hin.
  - exact (proj2 (proj2 (Hclose Hin))).
Defined.

(** X15.  In every variant, a caller who hangs up before the AI socket has
    opened leaves that socket to itself: a hang-up handled before the open
    event closes nothing (nor does its resumption in index.js, first
    document), and no event other than these ever closes the socket,
    whatever follows. *)
Theorem early_hangup_never_closes_openai_socket
    (JSON_parse : string → option json)
    (handle : Session → Event → Session * list Action)
    (evs1 evs2 : list Event) :
  is_variant JSON_parse handle →
  Forall (λ e, e ≠ OnOpenAiOpen) evs1 →
  Forall (λ e, e ≠ OnConnectionClose ∧ e ≠ OnHangupResumed) evs2 →
  List.filter is_openai_close (run handle initial (evs1 ++ evs2)).2 = [].
Proof.
  intros Hv H1 H2.
  destruct (not_open_run JSON_parse handle initial evs1 Hv eq_refl H1)
    as (_ & Hc1 & _).
  rewrite run_app. cbn [snd]. rewrite List.filter_app, Hc1. cbn [app].
  destruct (waits_cases JSON_parse handle Hv) as [waits Hw].
  generalize (run handle initial evs1).1. clear Hc1 H1.
  induction H2 as [|e evs [Hh Hr] H2 IH]; intros s; [done|].
  rewrite run_cons. cbn [snd]. rewrite List.filter_app, IH.
  destruct (close_step JSON_parse handle waits s e Hw) as [-> _].
  by destruct e.
Qed.

Lemma early_hangup_never_closes_openai_socket_witness :
  let handle := IndexJs.handle parse_json in
  let session := [start_frame "S1" None; media_frame 0 "AAAA";
                  OnConnectionClose]
                 ++ [OnOpenAiOpen; text_delta_frame "Hello"; OnOpenAiError;
                     OnOpenAiClose] in
  List.filter is_openai_close (run handle initial session).2 = [].
Proof.
  intros handle.
  refine (early_hangup_never_closes_openai_socket parse_json handle
            [start_frame "S1" None; media_frame 0 "AAAA"; OnConnectionClose]
            [OnOpenAiOpen; text_delta_frame "Hello"; OnOpenAiError;
             OnOpenAiClose]
            (or_introl eq_refl) _ _).
  - repeat constructor; discriminate.
  - repeat constructor; discriminate.
Defined.
